(** * DataScrapper: a shallow embedding of [main.py]

    The program reads (id, url) pairs from a CSV file, splits them into
    batches with [chunk_data], and lets a thread pool run [scrape_urls] on
    every batch.  Each item is fetched, a description is extracted, the
    shared counter [scraped_count] is advanced under [lock_count], failures
    are appended to the error file and the results of a batch are appended
    to the result file when the batch is finished.

    Python integers are [Z]; [//] and [%] are [Z.div] and [Z.modulo] (both
    floor, like Python's).  Python floats are IEEE 754 doubles, the
    kernel's [PrimFloat.float].  A Python [str] is given by its UTF-8
    bytes, one [ascii] per byte, so [len] is [py_len], the number of code
    points, and not [String.length].  Lists are [list]; a raised exception
    is the [Raise] case of [result].  The globals and the two output files
    are the fields of [world], threaded through every function; what the
    network, the HTML parser, the clock and the file system answer is an
    [environment].  The executor is a transition system over the worker
    threads ([pool_step_at]), run under a schedule by [run_pool]. *)

From Stdlib Require Import ZArith List Ascii String Bool Lia Permutation.
From Stdlib Require PrimFloat FloatOps SpecFloat.
Import ListNotations.
Local Open Scope string_scope.
Local Open Scope list_scope.
Local Open Scope Z_scope.

Set Implicit Arguments.

(** [length] and [concat] are those of lists here; the number of bytes of
    a string is written [String.length]. *)
Local Abbreviation length := Datatypes.length.
Local Abbreviation concat := List.concat.

(** ** Python strings and floats *)

(** A byte [10xxxxxx] continues a code point begun by an earlier byte. *)
Definition is_continuation (c : ascii) : bool :=
  let n := nat_of_ascii c in
  ((128 <=? n) && (n <? 192))%nat.

(** [len(s)] for a [str]: the number of code points, that is, of the bytes
    of its UTF-8 encoding that do not continue a code point. *)
Fixpoint py_len (s : string) : nat :=
  match s with
  | EmptyString => 0%nat
  | String c rest => ((if is_continuation c then 0 else 1) + py_len rest)%nat
  end.

(** [float(n)] for an [int], as [/] and [*] convert an [int] operand: the
    nearest double, ties to even. *)
Definition float_of_int (n : Z) : PrimFloat.float :=
  FloatOps.SF2Prim (SpecFloat.binary_normalize FloatOps.prec FloatOps.emax n 0 false).

(** [int(x)] for a finite double: truncation towards zero.  On an infinity
    or a NaN [int] raises; the value 0 given here stands for no run of the
    program. *)
Definition int_of_float (x : PrimFloat.float) : Z :=
  match FloatOps.Prim2SF x with
  | SpecFloat.S754_finite s m e =>
      let magnitude := if e <? 0 then Z.pos m / 2 ^ (- e) else Z.pos m * 2 ^ e in
      if s then - magnitude else magnitude
  | _ => 0
  end.

(** ** Exceptions and results *)

(** The exceptions the program can meet.  [FetchError] stands for whatever
    [requests.get] or [raise_for_status] raises, [ExtractError] for whatever
    the HTML parsing raises, [OSError] for a failing [open] or write. *)
Inductive exn : Type :=
| ZeroDivisionError
| ValueError (msg : string)
| IndexError
| FetchError (msg : string)
| ExtractError (msg : string)
| OSError (msg : string).

Inductive result (A : Type) : Type :=
| Ok (a : A)
| Raise (e : exn).

Arguments Ok {A} a.
Arguments Raise {A} e.

(** [str(e)] *)
Definition str_exn (e : exn) : string :=
  match e with
  | ZeroDivisionError => "integer division or modulo by zero"
  | ValueError msg => msg
  | IndexError => "list index out of range"
  | FetchError msg => msg
  | ExtractError msg => msg
  | OSError msg => msg
  end.

(** ** Python list primitives used by [chunk_data] *)

(** An index of a slice, brought into [0 .. len] the way Python does it:
    a negative index counts from the end, then both ends are clamped. *)
Definition slice_index (len i : Z) : Z :=
  if i <? 0 then Z.max (i + len) 0 else Z.min i len.

(** [l[lo:hi]] *)
Definition py_slice {A : Type} (l : list A) (lo hi : Z) : list A :=
  let len := Z.of_nat (length l) in
  let a := slice_index len lo in
  let b := slice_index len hi in
  firstn (Z.to_nat (b - a)) (skipn (Z.to_nat a) l).

(** [range(n)]: empty when [n <= 0]. *)
Definition py_range (n : Z) : list Z :=
  map Z.of_nat (seq 0 (Z.to_nat n)).

(** [divmod(a, n)]: raises on [n = 0]. *)
Definition py_divmod (a n : Z) : result (Z * Z) :=
  if n =? 0 then Raise ZeroDivisionError else Ok (a / n, a mod n).

(** ** [chunk_data] *)

(** The slice bounds of chunk [i]: [i * k + min(i, m)]. *)
Definition chunk_bound (k m i : Z) : Z := i * k + Z.min i m.

Definition chunk_data {A : Type} (data : list A) (n : Z) : result (list (list A)) :=
  match py_divmod (Z.of_nat (length data)) n with
  | Raise e => Raise e
  | Ok (k, m) =>
      Ok (map (fun i => py_slice data (chunk_bound k m i) (chunk_bound k m (i + 1)))
              (py_range n))
  end.

(** The first [j] chunks of the comprehension, for a quotient [k] and a
    remainder [m]. *)
Definition chunks_upto {A : Type} (data : list A) (k m : Z) (j : nat) : list (list A) :=
  map (fun i => py_slice data (chunk_bound k m i) (chunk_bound k m (i + 1)))
      (map Z.of_nat (seq 0 j)).

(** Sum of the sizes of a list of batches. *)
Definition total_size {A : Type} (chunks : list (list A)) : Z :=
  fold_right (fun c acc => Z.of_nat (length c) + acc) 0 chunks.

(** ** Data: work items, rows of the two output files, log lines *)

(** A work item is the pair [(book_id, url)]. *)
Definition WorkItem : Type := (Z * string)%type.

(** A result kept in memory by a worker: [(book_id, description)]. *)
Definition ResultRow : Type := (Z * option string)%type.

(** A row of [new_descriptions.csv]: the header [['ID', 'Description']] or
    a result. *)
Inductive sink_row : Type :=
| HeaderRow
| DataRow (book_id : Z) (description : option string).

(** A row of [scraping_errors.csv]: [[book_id, url, error_message]]. *)
Record error_row : Type := ErrorRow {
  err_id : Z;
  err_url : string;
  err_message : string
}.

(** One constructor per [logging] call of the source. *)
Inductive log_event : Type :=
| LogScraped (book_id : Z) (url : string)
| LogNoDescription (book_id : Z) (url : string)
| LogScrapeError (book_id : Z) (url : string) (e : exn)
| LogProgress (count total : nat) (seconds_left : Z)
| LogAllScraped
| LogSaved (book_id : Z)
| LogSaveError (ids : list Z) (e : exn)
| LogErrorLogged (book_id : Z)
| LogRowValueError (row : list string)
| LogRowIndexError (row : list string)
| LogRead (pairs : nat)
| LogInitiated
| LogMainError (e : exn).

(** The fixed text of each log line (what the f-string says around the
    values it formats). *)
Definition log_text (ev : log_event) : string :=
  match ev with
  | LogScraped _ _ => "Scraped description for ID {book_id} from {url}"
  | LogNoDescription _ _ => "No description found for ID {book_id} at {url}"
  | LogScrapeError _ _ _ => "Error scraping URL {url} for ID {book_id}: {e}"
  | LogProgress _ _ _ =>
      "Scraped {scraped_count}/{total_urls}. Approx. time left: {approx_time_left_formatted} (HH:MM:SS)"
  | LogAllScraped => "All URLs scraped"
  | LogSaved _ => "Data for ID {row[0]} saved to CSV"
  | LogSaveError _ _ => "Error saving data with ID's {ids} to CSV: {e}"
  | LogErrorLogged _ => "Logged error for ID {book_id} to {file_path}"
  | LogRowValueError _ => "Error reading row {row}: ID must be an integer"
  | LogRowIndexError _ => "Error reading row {row}: Row must have at least two columns"
  | LogRead _ => "Read {len(id_url_pairs)} ID-URL pairs from CSV"
  | LogInitiated => "Scraping initiated"
  | LogMainError _ => "Error in main function: {e}"
  end.

(** ** The process state and its environment *)

(** The module's globals and the files it writes.  [scraped_count] starts
    at 0 and is only changed by [scraped_count += 1]; [total_urls] starts at
    0 and is only assigned a [len(...)]: both are natural numbers. *)
Record world : Type := World {
  scraped_count : nat;
  total_urls : nat;
  result_file : list sink_row;
  error_file : list error_row;
  log : list log_event
}.

(** The state at start-up, over whatever the two files hold from earlier
    runs. *)
Definition initial_world (results : list sink_row) (errors : list error_row) : world :=
  World 0 0 results errors [].

Definition set_scraped_count (c : nat) (w : world) : world :=
  World c (total_urls w) (result_file w) (error_file w) (log w).

Definition set_total_urls (t : nat) (w : world) : world :=
  World (scraped_count w) t (result_file w) (error_file w) (log w).

Definition write_results (rows : list sink_row) (w : world) : world :=
  World (scraped_count w) (total_urls w) (result_file w ++ rows) (error_file w) (log w).

Definition write_error (row : error_row) (w : world) : world :=
  World (scraped_count w) (total_urls w) (result_file w) (error_file w ++ [row]) (log w).

(** [logging.info], [logging.warning], [logging.error] *)
Definition logging (ev : log_event) (w : world) : world :=
  World (scraped_count w) (total_urls w) (result_file w) (error_file w) (log w ++ [ev]).

(** What the program does not decide itself.
    - [py_int s] is [int(s)]; [None] when it raises [ValueError].
    - [fetch url] is [requests.get(url, headers=...)] followed by
      [raise_for_status()]: the response text, or the exception raised.
    - [find_description text] is [BeautifulSoup(text, 'html.parser')
      .find('div', class_='DetailsLayoutRightParagraph')] and, when a div is
      found, its [.text.strip()]: [Ok None] when there is no such div.
    - [elapsed_at c] is [timeit.default_timer() - start_time], a double, as
      read when the counter has just become [c] (the counter takes each
      value once).
    - [result_file_fault rows] says whether appending [rows] to the result
      file fails.  The file is buffered: [writerow] returns once the row is
      in the buffer, and the row reaches the file when the buffer is
      flushed, at [close] at the latest.  [Some (logged, stored, e)]: the
      exception [e] ends the [with] block after [logged] calls of
      [writerow] had returned, and the first [stored] of these rows (no
      more than [logged]) are in the file.  [open] failing is
      [(0, 0, e)]; [writerow] failing on row [k] (a text that cannot be
      encoded) is [(k, k, e)], the rows before it being flushed by
      [close]; the flush of [close] failing (a full disk) is [(n, s, e)]
      for [n] rows given, with [s] down to 0.
    - [error_file_fault row] says whether appending [row] to the error file
      raises: [Some (logged, e)], where [logged] tells whether [writerow]
      had returned, so that the line "Logged error" was emitted, before
      [e] was raised by [close].  The row is not in the file then. *)
Record environment : Type := Environment {
  py_int : string -> option Z;
  fetch : string -> result string;
  find_description : string -> result (option string);
  elapsed_at : nat -> PrimFloat.float;
  result_file_fault : list sink_row -> option (nat * nat * exn);
  error_file_fault : error_row -> option (bool * exn)
}.

(** ** The two sinks *)

(** [ids = [row[0] for row in data]] *)
Definition row_ids (data : list ResultRow) : list Z := map fst data.

Definition to_sink_row (r : ResultRow) : sink_row := DataRow (fst r) (snd r).

(** [save_to_csv]: every row is given to [writerow] and a line is logged
    for it; an exception anywhere in the block is caught and logged.  On a
    fault, the lines logged are those of the rows [writerow] took, and the
    rows in the file are those that were flushed: there can be fewer rows
    than lines. *)
Definition save_to_csv (E : environment) (data : list ResultRow) (w : world) : world :=
  let rows := map to_sink_row data in
  let saved (d : list ResultRow) (w0 : world) : world :=
    fold_left (fun acc r => logging (LogSaved (fst r)) acc) d w0 in
  match result_file_fault E rows with
  | None => saved data (write_results rows w)
  | Some (logged, stored, e) =>
      logging (LogSaveError (row_ids data) e)
              (saved (firstn logged data)
                     (write_results (firstn (Nat.min stored logged) rows) w))
  end.

(** [log_error_to_csv]: there is no [try] here, a failing append raises.
    When it is [close] that fails, the line "Logged error" is in the log
    already. *)
Definition log_error_to_csv (E : environment) (book_id : Z) (url error_message : string)
    (w : world) : result unit * world :=
  let row := ErrorRow book_id url error_message in
  match error_file_fault E row with
  | None => (Ok tt, logging (LogErrorLogged book_id) (write_error row w))
  | Some (logged, e) =>
      (Raise e, if logged then logging (LogErrorLogged book_id) w else w)
  end.

(** ** [scrape_urls] *)

(** The seconds of the estimate logged every ten items,
    [int(elapsed_time / scraped_count * remaining_urls)], computed in
    doubles as the source does.  [count] is the counter after its
    increment, so it is not 0 and the [float('inf')] alternative of the
    source is never taken.  The source raises [OverflowError] where the
    product is not finite or is beyond the range of [timedelta] (10^9
    days): the model is of the runs in which the clock and the totals stay
    below that. *)
Definition approx_time_left (elapsed : PrimFloat.float) (count total : nat) : Z :=
  let remaining_urls := Z.of_nat total - Z.of_nat count in
  let avg_time_per_url := PrimFloat.div elapsed (float_of_int (Z.of_nat count)) in
  int_of_float (PrimFloat.mul avg_time_per_url (float_of_int remaining_urls)).

(** What the [with lock_count:] block does once the counter holds [c]:
    the two [if]s of lines 99 to 111. *)
Definition report_progress (E : environment) (w : world) : world :=
  let c := scraped_count w in
  let w1 :=
    if (c mod 10 =? 0)%nat
    then logging (LogProgress c (total_urls w)
                    (approx_time_left (elapsed_at E c) c (total_urls w))) w
    else w in
  if (c =? total_urls w1)%nat then logging LogAllScraped w1 else w1.

(** The whole [with lock_count:] block, run in one piece. *)
Definition update_progress (E : environment) (w : world) : world :=
  report_progress E (set_scraped_count (S (scraped_count w)) w).

(** The [except Exception as e:] handler of one item. *)
Definition handle_failure (E : environment) (book_id : Z) (url : string) (e : exn)
    (results : list ResultRow) (w : world) : result unit * list ResultRow * world :=
  let w1 := logging (LogScrapeError book_id url e) w in
  let results1 := results ++ [(book_id, None)] in
  let '(r, w2) := log_error_to_csv E book_id url (str_exn e) w1 in
  (r, results1, w2).

(** The [try] / [except] of one iteration (lines 72 to 95): what it leaves
    pending for after the [finally] block, the results list and the state. *)
Definition scrape_item (E : environment) (row : WorkItem)
    (results : list ResultRow) (w : world) : result unit * list ResultRow * world :=
  let '(book_id, url) := row in
  match fetch E url with
  | Raise e => handle_failure E book_id url e results w
  | Ok text =>
      match find_description E text with
      | Raise e => handle_failure E book_id url e results w
      | Ok (Some description) =>
          let w1 := logging (LogScraped book_id url) w in
          let description' :=
            if (py_len description <? 10)%nat then None else Some description in
          (Ok tt, results ++ [(book_id, description')], w1)
      | Ok None =>
          let w1 := logging (LogNoDescription book_id url) w in
          (Ok tt, results ++ [(book_id, None)], w1)
      end
  end.

(** The [for row in data:] loop.  The [finally] block runs whatever the
    handler did; an exception the handler raised then leaves the loop. *)
Fixpoint scrape_loop (E : environment) (data : list WorkItem)
    (results : list ResultRow) (w : world) : result (list ResultRow) * world :=
  match data with
  | [] => (Ok results, w)
  | row :: rest =>
      let '(r, results1, w1) := scrape_item E row results w in
      let w2 := update_progress E w1 in
      match r with
      | Raise e => (Raise e, w2)
      | Ok _ => scrape_loop E rest results1 w2
      end
  end.

Definition scrape_urls (E : environment) (data : list WorkItem) (w : world)
    : result string * world :=
  match scrape_loop E data [] w with
  | (Raise e, w1) => (Raise e, w1)
  | (Ok results, w1) => (Ok "Scraping complete", save_to_csv E results w1)
  end.

(** ** What one item amounts to

    The functions below describe an item by what the environment answers
    for it; the theorems relate the loop of [scrape_urls] to them. *)

(** Fetching then extracting: the stripped text of the description div,
    [None] when the page has none, or the exception of either step. *)
Definition extracted (E : environment) (url : string) : result (option string) :=
  match fetch E url with
  | Raise e => Raise e
  | Ok text => find_description E text
  end.

(** The exception the [try] block raises for the item, if any. *)
Definition item_exception (E : environment) (row : WorkItem) : option exn :=
  match extracted E (snd row) with
  | Raise e => Some e
  | Ok _ => None
  end.

(** The description kept for the item: texts shorter than 10 characters,
    pages without the div and failed items all give [None]. *)
Definition item_description (E : environment) (row : WorkItem) : option string :=
  match extracted E (snd row) with
  | Ok (Some description) =>
      if (py_len description <? 10)%nat then None else Some description
  | Ok None => None
  | Raise _ => None
  end.

Definition item_result (E : environment) (row : WorkItem) : ResultRow :=
  (fst row, item_description E row).

(** The rows the item sends to the error file: one when it failed. *)
Definition item_errors (E : environment) (row : WorkItem) : list error_row :=
  match item_exception E row with
  | Some e => [ErrorRow (fst row) (snd row) (str_exn e)]
  | None => []
  end.

(** No append to the error file raises. *)
Definition error_file_reliable (E : environment) : Prop :=
  forall row : error_row, error_file_fault E row = None.

(** No append to the result file raises. *)
Definition result_file_reliable (E : environment) : Prop :=
  forall rows : list sink_row, result_file_fault E rows = None.

(** Rows of the two files that carry a given id. *)
Definition is_data_row_of (book_id : Z) (r : sink_row) : bool :=
  match r with
  | HeaderRow => false
  | DataRow i _ => i =? book_id
  end.

Definition result_rows_of (book_id : Z) (rows : list sink_row) : list sink_row :=
  filter (is_data_row_of book_id) rows.

Definition error_rows_of (book_id : Z) (rows : list error_row) : list error_row :=
  filter (fun r => err_id r =? book_id) rows.

Definition is_header (r : sink_row) : bool :=
  match r with
  | HeaderRow => true
  | DataRow _ _ => false
  end.

(** The number of header rows in a result file. *)
Definition header_count (rows : list sink_row) : nat :=
  length (filter is_header rows).

(** ** [read_id_url_pairs_from_csv] *)

Definition MAX_WORKERS : Z := 128.

(** The two exceptions the reading loop catches. *)
Inductive row_error : Type :=
| RowValueError
| RowIndexError.

(** [(int(row[1]), row[2])]: [row[1]] is read first, then converted, then
    [row[2]] is read. *)
Definition parse_row (E : environment) (row : list string) : WorkItem + row_error :=
  match nth_error row 1 with
  | None => inr RowIndexError
  | Some id_field =>
      match py_int E id_field with
      | None => inr RowValueError
      | Some book_id =>
          match nth_error row 2 with
          | None => inr RowIndexError
          | Some url => inl (book_id, url)
          end
      end
  end.

(** The [for row in reader:] loop over the rows [csv.reader] yields. *)
Fixpoint read_rows (E : environment) (rows : list (list string))
    (id_url_pairs : list WorkItem) (w : world) : list WorkItem * world :=
  match rows with
  | [] => (id_url_pairs, w)
  | row :: rest =>
      match parse_row E row with
      | inl item => read_rows E rest (id_url_pairs ++ [item]) w
      | inr RowValueError => read_rows E rest id_url_pairs (logging (LogRowValueError row) w)
      | inr RowIndexError => read_rows E rest id_url_pairs (logging (LogRowIndexError row) w)
      end
  end.

(** [int(math.sqrt(total * MAX_WORKERS) * 2)].  Twice the square root of
    [x] is the square root of [4 * x], and the truncation of that is
    [Z.sqrt (4 * x)]; the double-precision computation gives the same
    integer as long as [x] stays below [2 ^ 50]. *)
Definition batch_count (total : nat) : Z :=
  Z.sqrt (4 * (Z.of_nat total * MAX_WORKERS)).

(** The input file is given by the rows [csv.reader] yields for it. *)
Definition read_id_url_pairs_from_csv (E : environment) (rows : list (list string))
    (w : world) : result (list (list WorkItem)) * world :=
  let '(id_url_pairs, w1) := read_rows E rows [] w in
  let w2 := logging (LogRead (length id_url_pairs)) w1 in
  let w3 := set_total_urls (length id_url_pairs) w2 in
  (chunk_data id_url_pairs (batch_count (length id_url_pairs)), w3).

(** A row that has three columns at least and an integer in the second. *)
Definition row_ok (E : environment) (row : list string) : bool :=
  match row with
  | _ :: id_field :: _ :: _ =>
      match py_int E id_field with
      | Some _ => true
      | None => false
      end
  | _ => false
  end.

(** The items of the rows that [parse_row] accepts, in the order of the
    file. *)
Definition well_formed_items (E : environment) (rows : list (list string)) : list WorkItem :=
  flat_map (fun row => match parse_row E row with inl item => [item] | inr _ => [] end) rows.

(** The line the reading loop logs for a row, if any. *)
Definition row_log (E : environment) (row : list string) : list log_event :=
  match parse_row E row with
  | inl _ => []
  | inr RowValueError => [LogRowValueError row]
  | inr RowIndexError => [LogRowIndexError row]
  end.

(** ** The thread pool *)

(** Where a worker thread stands.
    - [Idle]: waiting for a batch.
    - [AtItem todo results]: inside [scrape_urls], at the head of the loop
      ([todo = []]: about to call [save_to_csv]).
    - [AtFinally pending rest results]: the [try] / [except] of the current
      item is over, [pending] is what it left (an exception of the handler,
      or nothing); the thread waits for [lock_count].
    - [InCritical loaded pending rest results]: the thread holds
      [lock_count] and has read [scraped_count] ([loaded]) for the
      [+= 1]. *)
Inductive thread : Type :=
| Idle
| AtItem (todo : list WorkItem) (results : list ResultRow)
| AtFinally (pending : result unit) (rest : list WorkItem) (results : list ResultRow)
| InCritical (loaded : nat) (pending : result unit) (rest : list WorkItem)
    (results : list ResultRow).

(** The executor: batches not yet taken, the worker threads, the outcome of
    every finished call of [scrape_urls] (what its future holds),
    [lock_count] and the process state. *)
Record pool : Type := Pool {
  queue : list (list WorkItem);
  threads : list thread;
  futures : list (result string);
  lock_count : bool;
  shared : world
}.

Fixpoint set_nth {A : Type} (i : nat) (x : A) (l : list A) : list A :=
  match l, i with
  | [], _ => []
  | _ :: l', O => x :: l'
  | y :: l', S i' => y :: set_nth i' x l'
  end.

(** One step of thread [i]; [None] when the thread does not exist or
    cannot move (idle with an empty queue, or waiting for a lock that is
    held).  A step is one action of the thread on the shared state:
    taking a batch, the [try] / [except] of one item, entering the
    [with lock_count:] block and reading the counter, writing the counter
    back with the rest of the block, or [save_to_csv].  The appends to the
    two files, each under its own lock ([lock], [lock_error]), are one
    step each; [lock_count], whose block reads the counter and writes it
    back, is the lock the pool keeps track of. *)
Definition pool_step_at (E : environment) (i : nat) (p : pool) : option pool :=
  match nth_error (threads p) i with
  | None => None
  | Some Idle =>
      match queue p with
      | [] => None
      | batch :: q =>
          Some (Pool q (set_nth i (AtItem batch []) (threads p))
                     (futures p) (lock_count p) (shared p))
      end
  | Some (AtItem [] results) =>
      Some (Pool (queue p) (set_nth i Idle (threads p))
                 (futures p ++ [Ok "Scraping complete"]) (lock_count p)
                 (save_to_csv E results (shared p)))
  | Some (AtItem (row :: rest) results) =>
      let '(r, results1, w1) := scrape_item E row results (shared p) in
      Some (Pool (queue p) (set_nth i (AtFinally r rest results1) (threads p))
                 (futures p) (lock_count p) w1)
  | Some (AtFinally r rest results) =>
      if lock_count p then None
      else Some (Pool (queue p)
                      (set_nth i (InCritical (scraped_count (shared p)) r rest results)
                               (threads p))
                      (futures p) true (shared p))
  | Some (InCritical loaded r rest results) =>
      let w1 := report_progress E (set_scraped_count (S loaded) (shared p)) in
      match r with
      | Ok _ =>
          Some (Pool (queue p) (set_nth i (AtItem rest results) (threads p))
                     (futures p) false w1)
      | Raise e =>
          Some (Pool (queue p) (set_nth i Idle (threads p))
                     (futures p ++ [Raise e]) false w1)
      end
  end.

Definition pool_step (E : environment) (p p' : pool) : Prop :=
  exists i : nat, pool_step_at E i p = Some p'.

(** Any number of steps. *)
Inductive pool_steps (E : environment) : pool -> pool -> Prop :=
| steps_refl (p : pool) : pool_steps E p p
| steps_cons (p p1 p2 : pool) :
    pool_step E p p1 -> pool_steps E p1 p2 -> pool_steps E p p2.

(** Every batch was taken and every thread is back to waiting. *)
Definition pool_finished (p : pool) : Prop :=
  queue p = [] /\ Forall (fun t => t = Idle) (threads p).

(** [ThreadPoolExecutor(max_workers)] with the batches submitted. *)
Definition start_pool (max_workers : Z) (batches : list (list WorkItem)) (w : world) : pool :=
  Pool batches (repeat Idle (Z.to_nat max_workers)) [] false w.

(** The steps a thread still has to take for the rest of its batch, and
    the pool's: three per item, one to take a batch, one to save it. *)
Definition thread_measure (t : thread) : nat :=
  match t with
  | Idle => 0%nat
  | AtItem todo _ => (3 * length todo + 1)%nat
  | AtFinally _ rest _ => (3 * length rest + 3)%nat
  | InCritical _ _ rest _ => (3 * length rest + 2)%nat
  end.

Definition pool_measure (p : pool) : nat :=
  (list_sum (map (fun b => 3 * length b + 2) (queue p)) +
   list_sum (map thread_measure (threads p)))%nat.

(** The pool under a schedule: the threads named by [sched] move one
    after the other (a name that cannot move is skipped). *)
Fixpoint follow (E : environment) (sched : list nat) (p : pool) : pool :=
  match sched with
  | [] => p
  | i :: sched' =>
      follow E sched' (match pool_step_at E i p with Some p' => p' | None => p end)
  end.

Fixpoint find_step (E : environment) (p : pool) (candidates : list nat) : option pool :=
  match candidates with
  | [] => None
  | i :: rest =>
      match pool_step_at E i p with
      | Some p' => Some p'
      | None => find_step E p rest
      end
  end.

(** The first thread that can move moves, [fuel] times at most. *)
Fixpoint drain (E : environment) (fuel : nat) (p : pool) : pool :=
  match fuel with
  | O => p
  | S fuel' =>
      match find_step E p (seq 0 (length (threads p))) with
      | Some p' => drain E fuel' p'
      | None => p
      end
  end.

(** The executor's [with] block: it is left when every batch is done.
    [sched] is the order in which the threads happened to move; what is
    left after it is run to the end. *)
Definition run_pool (E : environment) (sched : list nat) (p : pool) : pool :=
  let p1 := follow E sched p in
  drain E (pool_measure p1) p1.

(** ** Quantities of a pool the proofs follow *)

(** 1 for a thread inside the [with lock_count:] block. *)
Definition in_critical (t : thread) : nat :=
  match t with
  | InCritical _ _ _ _ => 1%nat
  | _ => 0%nat
  end.

(** The items of the thread's batch that the counter has not counted
    yet. *)
Definition uncounted (t : thread) : nat :=
  match t with
  | Idle => 0%nat
  | AtItem todo _ => length todo
  | AtFinally _ rest _ => S (length rest)
  | InCritical _ _ rest _ => S (length rest)
  end.

(** The thread carries no exception of the handler. *)
Definition nothing_pending (t : thread) : Prop :=
  match t with
  | AtFinally (Raise _) _ _ => False
  | InCritical _ (Raise _) _ _ => False
  | _ => True
  end.

(** What a thread inside the block has read is the counter's value [c]. *)
Definition loaded_is (c : nat) (t : thread) : Prop :=
  match t with
  | InCritical loaded _ _ _ => loaded = c
  | _ => True
  end.

(** [lock_count] is held exactly when one thread is inside the block, no
    two threads are inside, and the thread inside has read the current
    value of the counter. *)
Definition lock_invariant (p : pool) : Prop :=
  list_sum (map in_critical (threads p)) = (if lock_count p then 1 else 0)%nat /\
  Forall (loaded_is (scraped_count (shared p))) (threads p).

(** The items not counted yet: those of the batches in the queue and
    those the threads still owe. *)
Definition items_left (p : pool) : nat :=
  (list_sum (map (fun b : list WorkItem => length b) (queue p)) +
   list_sum (map uncounted (threads p)))%nat.

(** No thread carries an exception of the handler, and the counter plus
    the items not counted yet make [n]. *)
Definition count_invariant (n : nat) (p : pool) : Prop :=
  Forall nothing_pending (threads p) /\
  (scraped_count (shared p) + items_left p = n)%nat.

(** ** [main] *)

(** Lines 216 to 219: the result file is opened for appending and the
    header is written when the file is empty. *)
Definition write_header (E : environment) (w : world) : result unit * world :=
  let rows := match result_file w with [] => [HeaderRow] | _ :: _ => [] end in
  match result_file_fault E rows with
  | None => (Ok tt, write_results rows w)
  | Some (logged, stored, e) =>
      (Raise e, write_results (firstn (Nat.min stored logged) rows) w)
  end.

(** [main(file_path, max_workers)].  The call of
    [read_id_url_pairs_from_csv] is outside the [try]: what it raises
    leaves [main].  Inside the [try], [ThreadPoolExecutor] refuses
    [max_workers <= 0] with a [ValueError]; the results of
    [executor.map] are never read, so what a call of [scrape_urls]
    raised stays in its future.  The line "Scraping initiated" is put
    before the workers' first step (in the program it can fall anywhere
    among their lines). *)
Definition main (E : environment) (rows : list (list string)) (max_workers : Z)
    (sched : list nat) (w : world) : result unit * world :=
  match read_id_url_pairs_from_csv E rows w with
  | (Raise e, w1) => (Raise e, w1)
  | (Ok id_url_pairs, w1) =>
      match write_header E w1 with
      | (Raise e, w2) => (Ok tt, logging (LogMainError e) w2)
      | (Ok _, w2) =>
          if max_workers <=? 0
          then (Ok tt, logging (LogMainError
                                  (ValueError "max_workers must be greater than 0")) w2)
          else
            let p := start_pool max_workers id_url_pairs (logging LogInitiated w2) in
            (Ok tt, shared (run_pool E sched p))
      end
  end.

(** ** Further quantities the properties speak of *)

(** The exception that the handler's append to the error file raises for
    the item, if the item fails and the append fails too. *)
Definition append_fault (E : environment) (row : WorkItem) : option exn :=
  match item_exception E row with
  | Some e =>
      option_map snd (error_file_fault E (ErrorRow (fst row) (snd row) (str_exn e)))
  | None => None
  end.

(** How many of the rows [save_to_csv] is given reach the result file. *)
Definition rows_written (E : environment) (data : list ResultRow) : nat :=
  match result_file_fault E (map to_sink_row data) with
  | None => length data
  | Some (logged, stored, _) => Nat.min (Nat.min stored logged) (length data)
  end.

(** For how many of them [save_to_csv] logs the line "saved". *)
Definition lines_logged (E : environment) (data : list ResultRow) : nat :=
  match result_file_fault E (map to_sink_row data) with
  | None => length data
  | Some (logged, _, _) => Nat.min logged (length data)
  end.

Definition is_progress (ev : log_event) : bool :=
  match ev with
  | LogProgress _ _ _ => true
  | _ => false
  end.

Definition is_all_scraped (ev : log_event) : bool :=
  match ev with
  | LogAllScraped => true
  | _ => false
  end.

(** The estimates and the lines "All URLs scraped" in a log. *)
Definition progress_lines (l : list log_event) : nat := length (filter is_progress l).

Definition all_scraped_lines (l : list log_event) : nat :=
  length (filter is_all_scraped l).

(** The second state has the counter, the files and the log of the first,
    with more counted and more appended. *)
Definition grows (w w' : world) : Prop :=
  (scraped_count w <= scraped_count w')%nat /\
  (exists rows, result_file w' = result_file w ++ rows) /\
  (exists rows, error_file w' = error_file w ++ rows) /\
  (exists lines, log w' = log w ++ lines).

(** 1 once the counter has reached [total]. *)
Definition reached (total count : nat) : nat :=
  if (total <=? count)%nat then 1%nat else 0%nat.

(** The rows the items of a batch give in the result file. *)
Definition batch_rows (E : environment) (batch : list WorkItem) : list sink_row :=
  map (fun item => DataRow (fst item) (item_description E item)) batch.

(** The rows a thread still owes to the result file: the results it
    holds and those of the items it has not processed. *)
Definition pending_results (E : environment) (t : thread) : list sink_row :=
  match t with
  | Idle => []
  | AtItem todo results => map to_sink_row results ++ batch_rows E todo
  | AtFinally _ rest results => map to_sink_row results ++ batch_rows E rest
  | InCritical _ _ rest results => map to_sink_row results ++ batch_rows E rest
  end.

(** The rows a thread still owes to the error file. *)
Definition pending_errors (E : environment) (t : thread) : list error_row :=
  match t with
  | Idle => []
  | AtItem todo _ => flat_map (item_errors E) todo
  | AtFinally _ rest _ => flat_map (item_errors E) rest
  | InCritical _ _ rest _ => flat_map (item_errors E) rest
  end.

(** 1 for a thread that is inside [scrape_urls]. *)
Definition busy (t : thread) : nat :=
  match t with
  | Idle => 0%nat
  | _ => 1%nat
  end.

(** The calls of [scrape_urls] on the batches one after the other, as a
    plain loop would make them: what each call returned or raised, and
    the state at the end. *)
Fixpoint run_batches (E : environment) (batches : list (list WorkItem)) (w : world)
    : list (result string) * world :=
  match batches with
  | [] => ([], w)
  | batch :: rest =>
      let '(r, w1) := scrape_urls E batch w in
      let '(rs, w2) := run_batches E rest w1 in
      (r :: rs, w2)
  end.

(** Equality of rows can be decided. *)
Definition sink_row_eq_dec (x y : sink_row) : {x = y} + {x <> y}.
Proof.
  decide equality.
  - decide equality. apply string_dec.
  - apply Z.eq_dec.
Defined.

Definition error_row_eq_dec (x y : error_row) : {x = y} + {x <> y}.
Proof.
  decide equality; try apply string_dec. apply Z.eq_dec.
Defined.

(** ** An environment to run the model on *)

Definition digit_value (c : ascii) : option Z :=
  let n := Z.of_nat (nat_of_ascii c) in
  if (48 <=? n) && (n <=? 57) then Some (n - 48) else None.

Fixpoint digits_value (s : string) (acc : Z) : option Z :=
  match s with
  | EmptyString => Some acc
  | String c s' =>
      match digit_value c with
      | Some d => digits_value s' (10 * acc + d)
      | None => None
      end
  end.

(** [int] on the plain decimal literals: digits, with an optional minus
    sign.  It serves the examples only; the theorems hold for every
    [py_int]. *)
Definition decimal_int (s : string) : option Z :=
  match s with
  | EmptyString => None
  | String "-"%char EmptyString => None
  | String "-"%char s' => option_map Z.opp (digits_value s' 0)
  | _ => digits_value s 0
  end.

(** An environment in which [fetch] and [find_description] answer as
    given, an item takes a second and a half, and no file operation
    fails. *)
Definition example_clock (c : nat) : PrimFloat.float :=
  PrimFloat.div (float_of_int (3 * Z.of_nat c)) (float_of_int 2).

Definition quiet_env (fetch_ : string -> result string)
    (find_ : string -> result (option string)) : environment :=
  Environment decimal_int fetch_ find_ example_clock (fun _ => None) (fun _ => None).

(** The pages of the examples: [http://a] has a description of 50
    characters, [http://c] one of 5 characters, [http://d] has no
    description div, and [http://b] times out. *)
Definition example_fetch (url : string) : result string :=
  if String.eqb url "http://b" then Raise (FetchError "timeout")
  else Ok ("<html>" ++ url ++ "</html>")%string.

Definition example_find (text : string) : result (option string) :=
  if String.eqb text "<html>http://a</html>"
  then Ok (Some "A description that is exactly fifty characters ok.")
  else if String.eqb text "<html>http://c</html>" then Ok (Some "short")
  else Ok None.

Definition example_env : environment := quiet_env example_fetch example_find.

(** The same pages, with an error file that cannot be written. *)
Definition read_only_errors_env : environment :=
  Environment decimal_int example_fetch example_find example_clock
    (fun _ => None) (fun _ => Some (false, OSError "Permission denied")).

(** The same pages, with a result file that cannot be opened. *)
Definition read_only_results_env : environment :=
  Environment decimal_int example_fetch example_find example_clock
    (fun _ => Some (0%nat, 0%nat, OSError "Permission denied")) (fun _ => None).

(** The same pages on a full disk: every [writerow] returns, and the flush
    of [close] fails with nothing written. *)
Definition full_disk_env : environment :=
  Environment decimal_int example_fetch example_find example_clock
    (fun rows => match rows with
                 | [] => None
                 | _ :: _ => Some (length rows, 0%nat, OSError "No space left on device")
                 end)
    (fun _ => Some (true, OSError "No space left on device")).

(** An input file for the examples: three good rows, a row of two columns
    and a row whose id is no integer. *)
Definition example_rows : list (list string) :=
  [["x"; "1"; "http://a"]; ["x"; "2"; "http://b"]; ["y"; "3"; "http://c"];
   ["z"; "4"]; ["q"; "zz"; "http://d"]].

(** * Properties of [chunk_data] *)

Section Chunking.

Variable A : Type.

Lemma firstn_add_skipn (l : list A) (a d : nat) :
  firstn (a + d) l = firstn a l ++ firstn d (skipn a l).
Proof.
  revert l; induction a as [|a IH]; intros l; simpl.
  - reflexivity.
  - destruct l as [|x l]; simpl.
    + now rewrite firstn_nil.
    + now rewrite IH.
Qed.

Lemma slice_index_id (len i : Z) : 0 <= i <= len -> slice_index len i = i.
Proof.
  intros H. unfold slice_index.
  destruct (Z.ltb_spec i 0); lia.
Qed.

(** Inside the list, a slice is [skipn] followed by [firstn]. *)
Lemma py_slice_inside (l : list A) (lo hi : Z) :
  0 <= lo <= hi -> hi <= Z.of_nat (length l) ->
  py_slice l lo hi = firstn (Z.to_nat (hi - lo)) (skipn (Z.to_nat lo) l).
Proof.
  intros H1 H2. unfold py_slice.
  rewrite !slice_index_id by lia. reflexivity.
Qed.

Lemma py_slice_length (l : list A) (lo hi : Z) :
  0 <= lo <= hi -> hi <= Z.of_nat (length l) ->
  Z.of_nat (length (py_slice l lo hi)) = hi - lo.
Proof.
  intros H1 H2. rewrite py_slice_inside by lia.
  rewrite length_firstn, length_skipn. lia.
Qed.

(** Facts on the bounds, for a quotient [k >= 0] and a remainder
    [0 <= m < n]. *)
Lemma chunk_bound_0 (k m : Z) : 0 <= m -> chunk_bound k m 0 = 0.
Proof. unfold chunk_bound. lia. Qed.

Lemma chunk_bound_n (k m n : Z) : m < n -> chunk_bound k m n = n * k + m.
Proof. unfold chunk_bound. lia. Qed.

Lemma chunk_bound_step (k m i : Z) :
  chunk_bound k m (i + 1) - chunk_bound k m i = k + (if i <? m then 1 else 0).
Proof.
  unfold chunk_bound.
  destruct (Z.ltb_spec i m); lia.
Qed.

Lemma chunk_bound_nonneg (k m i : Z) :
  0 <= k -> 0 <= m -> 0 <= i -> 0 <= chunk_bound k m i.
Proof. intros Hk Hm Hi. unfold chunk_bound. nia. Qed.

Lemma chunk_bound_mono (k m i : Z) :
  0 <= k -> chunk_bound k m i <= chunk_bound k m (i + 1).
Proof.
  intros Hk. pose proof (chunk_bound_step k m i) as H.
  destruct (i <? m); lia.
Qed.

Lemma chunk_bound_le_total (k m n i : Z) :
  0 <= k -> 0 <= m < n -> 0 <= i <= n -> chunk_bound k m i <= n * k + m.
Proof. intros Hk Hm Hi. unfold chunk_bound. nia. Qed.

Lemma chunks_upto_S (data : list A) (k m : Z) (j : nat) :
  chunks_upto data k m (S j) =
  chunks_upto data k m j ++
  [py_slice data (chunk_bound k m (Z.of_nat j)) (chunk_bound k m (Z.of_nat j + 1))].
Proof.
  unfold chunks_upto. rewrite seq_S, !map_app. reflexivity.
Qed.

Lemma total_size_app (xs ys : list (list A)) :
  total_size (xs ++ ys) = total_size xs + total_size ys.
Proof.
  induction xs as [|x xs IH]; simpl; [reflexivity|].
  rewrite IH. lia.
Qed.

Section Prefix.

Variable data : list A.
Variables k m n : Z.
Hypothesis Hk : 0 <= k.
Hypothesis Hm : 0 <= m < n.
Hypothesis Hlen : Z.of_nat (length data) = n * k + m.

Lemma chunk_slice_length (j : nat) :
  Z.of_nat j < n ->
  Z.of_nat (length (py_slice data (chunk_bound k m (Z.of_nat j))
                                  (chunk_bound k m (Z.of_nat j + 1)))) =
  k + (if Z.of_nat j <? m then 1 else 0).
Proof.
  intros Hj.
  rewrite py_slice_length.
  - apply chunk_bound_step.
  - split; [apply chunk_bound_nonneg; lia | apply chunk_bound_mono; lia].
  - rewrite Hlen. apply chunk_bound_le_total; lia.
Qed.

Lemma chunks_upto_concat (j : nat) :
  Z.of_nat j <= n ->
  concat (chunks_upto data k m j) =
  firstn (Z.to_nat (chunk_bound k m (Z.of_nat j))) data.
Proof.
  induction j as [|j IH]; intros Hj.
  - simpl. rewrite chunk_bound_0 by lia. reflexivity.
  - rewrite chunks_upto_S, concat_app, IH by lia. simpl concat.
    rewrite app_nil_r.
    assert (H0 : 0 <= chunk_bound k m (Z.of_nat j))
      by (apply chunk_bound_nonneg; lia).
    assert (H1 : chunk_bound k m (Z.of_nat j) <= chunk_bound k m (Z.of_nat j + 1))
      by (apply chunk_bound_mono; lia).
    assert (H2 : chunk_bound k m (Z.of_nat j + 1) <= n * k + m)
      by (apply chunk_bound_le_total; lia).
    rewrite py_slice_inside by lia.
    rewrite <- firstn_add_skipn. f_equal.
    replace (Z.of_nat (S j)) with (Z.of_nat j + 1) by lia. lia.
Qed.

Lemma chunks_upto_total_size (j : nat) :
  Z.of_nat j <= n ->
  total_size (chunks_upto data k m j) = chunk_bound k m (Z.of_nat j).
Proof.
  induction j as [|j IH]; intros Hj.
  - simpl. rewrite chunk_bound_0 by lia. reflexivity.
  - rewrite chunks_upto_S, total_size_app, IH by lia.
    unfold total_size at 1; simpl fold_right.
    rewrite chunk_slice_length by lia.
    pose proof (chunk_bound_step k m (Z.of_nat j)) as Hs.
    replace (Z.of_nat (S j)) with (Z.of_nat j + 1) by lia. lia.
Qed.

Lemma chunks_upto_sizes (j : nat) :
  Z.of_nat j <= n ->
  Forall (fun c => Z.of_nat (length c) = k \/ Z.of_nat (length c) = k + 1)
         (chunks_upto data k m j).
Proof.
  induction j as [|j IH]; intros Hj.
  - constructor.
  - rewrite chunks_upto_S. apply Forall_app. split; [apply IH; lia|].
    constructor; [|constructor].
    rewrite chunk_slice_length by lia.
    destruct (Z.of_nat j <? m); lia.
Qed.

End Prefix.

(** With at least one batch, [chunk_data] returns and its batches put end
    to end are the list. *)
Lemma chunk_data_concat (data : list A) (n : Z) :
  1 <= n ->
  exists chunks : list (list A), chunk_data data n = Ok chunks /\ concat chunks = data.
Proof.
  intros Hn.
  set (T := Z.of_nat (length data)).
  assert (Hm : 0 <= T mod n < n) by (apply Z.mod_pos_bound; lia).
  assert (Hk : 0 <= T / n) by (apply Z.div_pos; lia).
  assert (HT : T = n * (T / n) + T mod n) by (apply Z.div_mod; lia).
  exists (chunks_upto data (T / n) (T mod n) (Z.to_nat n)). split.
  - unfold chunk_data, py_divmod.
    destruct (Z.eqb_spec n 0); [lia|]. reflexivity.
  - rewrite chunks_upto_concat with (n := n) by (auto; lia).
    rewrite Z2Nat.id, chunk_bound_n by lia.
    rewrite <- HT. unfold T. rewrite Nat2Z.id. apply firstn_all.
Qed.

(** C2.  For every list [data] of length [T] and every batch count
    [n >= 1], [chunk_data data n] returns (it does not raise) exactly [n]
    batches; each has [T / n] or [T / n + 1] elements, the sizes sum to [T],
    and the batches concatenated in order are [data] itself. *)
Theorem chunk_data_partition (data : list A) (n : Z) :
  1 <= n ->
  exists chunks : list (list A),
    chunk_data data n = Ok chunks /\
    Z.of_nat (length chunks) = n /\
    Forall (fun c => Z.of_nat (length c) = Z.of_nat (length data) / n \/
                     Z.of_nat (length c) = Z.of_nat (length data) / n + 1) chunks /\
    total_size chunks = Z.of_nat (length data) /\
    concat chunks = data.
Proof.
  intros Hn.
  set (T := Z.of_nat (length data)).
  set (k := T / n). set (m := T mod n).
  assert (Hm : 0 <= m < n) by (apply Z.mod_pos_bound; lia).
  assert (Hk : 0 <= k) by (apply Z.div_pos; lia).
  assert (HT : T = n * k + m) by (apply Z.div_mod; lia).
  exists (chunks_upto data k m (Z.to_nat n)).
  assert (Hnn : Z.of_nat (Z.to_nat n) = n) by lia.
  split; [|split; [|split; [|split]]].
  - unfold chunk_data, py_divmod.
    destruct (Z.eqb_spec n 0); [lia|]. reflexivity.
  - unfold chunks_upto. rewrite !length_map, length_seq. lia.
  - apply chunks_upto_sizes with (n := n); auto; lia.
  - rewrite chunks_upto_total_size with (n := n) by (auto; lia).
    rewrite Hnn, chunk_bound_n by lia. lia.
  - rewrite chunks_upto_concat with (n := n) by (auto; lia).
    rewrite Hnn, chunk_bound_n by lia.
    rewrite <- HT. unfold T. rewrite Nat2Z.id. apply firstn_all.
Qed.

(** ** More on the batches *)

(** With at least one batch, the comprehension of [chunk_data] is its
    list of chunks. *)
Lemma chunk_data_chunks_upto (data : list A) (n : Z) :
  1 <= n ->
  chunk_data data n =
  Ok (chunks_upto data (Z.of_nat (length data) / n) (Z.of_nat (length data) mod n)
        (Z.to_nat n)).
Proof.
  intros Hn. unfold chunk_data, py_divmod.
  destruct (Z.eqb_spec n 0); [lia|]. reflexivity.
Qed.

(** X1.  [chunk_data] with no batch to make raises [ZeroDivisionError],
    whatever the list; with a negative number of batches it returns
    normally, with no batch at all: the items are in none. *)
Theorem chunk_data_no_batches (data : list A) (n : Z) :
  n <= 0 ->
  chunk_data data n = (if n =? 0 then Raise ZeroDivisionError else Ok []).
Proof.
  intros Hn. unfold chunk_data, py_divmod, py_range.
  destruct (Z.eqb_spec n 0) as [->|Hne]; [reflexivity|].
  replace (Z.to_nat n) with 0%nat by lia. reflexivity.
Qed.

(** The sizes of the chunks, in order. *)
Lemma chunks_upto_size_list (data : list A) (n : Z) :
  1 <= n ->
  map (fun c => Z.of_nat (length c))
      (chunks_upto data (Z.of_nat (length data) / n) (Z.of_nat (length data) mod n)
         (Z.to_nat n)) =
  map (fun j => Z.of_nat (length data) / n +
                (if j <? Z.of_nat (length data) mod n then 1 else 0))
      (py_range n).
Proof.
  intros Hn.
  set (T := Z.of_nat (length data)).
  assert (Hm : 0 <= T mod n < n) by (apply Z.mod_pos_bound; lia).
  assert (Hk : 0 <= T / n) by (apply Z.div_pos; lia).
  assert (HT : T = n * (T / n) + T mod n) by (apply Z.div_mod; lia).
  unfold chunks_upto, py_range. rewrite map_map.
  apply map_ext_in. intros j Hj.
  apply in_map_iff in Hj. destruct Hj as (i & <- & Hi). apply in_seq in Hi.
  apply (@chunk_slice_length data (T / n) (T mod n) n Hk Hm HT). lia.
Qed.

(** X2.  The size of every batch: batch [j] (from 0) has
    [T / n + 1] elements when [j < T mod n] and [T / n] otherwise, so the
    longer batches come first. *)
Theorem chunk_data_sizes (data : list A) (n : Z) :
  1 <= n ->
  exists chunks : list (list A),
    chunk_data data n = Ok chunks /\
    map (fun c => Z.of_nat (length c)) chunks =
    map (fun j => Z.of_nat (length data) / n +
                  (if j <? Z.of_nat (length data) mod n then 1 else 0))
        (py_range n).
Proof.
  intros Hn. eexists. split.
  - apply chunk_data_chunks_upto. exact Hn.
  - apply chunks_upto_size_list. exact Hn.
Qed.

Lemma map_const_repeat (B C : Type) (f : B -> C) (c : C) (l : list B) :
  (forall x, In x l -> f x = c) -> map f l = repeat c (length l).
Proof.
  induction l as [|x l IH]; intros H; simpl; [reflexivity|].
  rewrite (H x (or_introl eq_refl)), IH; [reflexivity|].
  intros y Hy. apply H. right. exact Hy.
Qed.

(** Chunks of sizes 1, ..., 1, 0, ..., 0 that make up a list are its
    elements one by one, then empty lists. *)
Lemma singletons_of_sizes (data : list A) :
  forall (chunks : list (list A)) (r : nat),
    concat chunks = data ->
    map (fun c => Z.of_nat (length c)) chunks = repeat 1 (length data) ++ repeat 0 r ->
    chunks = map (fun x => [x]) data ++ repeat [] r.
Proof.
  induction data as [|x data IH]; intros chunks r Hconcat Hsizes; simpl in *.
  - clear Hconcat. revert chunks Hsizes.
    induction r as [|r IHr]; intros [|c chunks] Hsizes; simpl in *;
      try discriminate; [reflexivity|].
    injection Hsizes as Hc Hrest.
    destruct c; [|simpl in Hc; lia]. rewrite (IHr chunks Hrest). reflexivity.
  - destruct chunks as [|c chunks]; [discriminate|]. simpl in *.
    injection Hsizes as Hc Hrest.
    destruct c as [|y [|z c]]; simpl in Hc; try lia.
    simpl in Hconcat. injection Hconcat as -> Hconcat.
    rewrite (IH chunks r Hconcat Hrest). reflexivity.
Qed.

Lemma chunk_data_one_each (data : list A) (n : Z) :
  1 <= n -> Z.of_nat (length data) <= n ->
  chunk_data data n =
  Ok (map (fun x => [x]) data ++ repeat [] (Z.to_nat n - length data)).
Proof.
  intros Hn Hlen.
  destruct (chunk_data_concat data Hn) as (chunks & Hchunks & Hconcat).
  pose proof (chunks_upto_size_list data Hn) as Hsizes.
  pose proof (chunk_data_chunks_upto data Hn) as Hchunks'.
  rewrite Hchunks in Hchunks'. injection Hchunks' as Heq. subst chunks.
  rewrite Hchunks. f_equal.
  apply singletons_of_sizes; [exact Hconcat|].
  rewrite Hsizes. unfold py_range.
  set (T := Z.of_nat (length data)) in *.
  assert (Hsplit : Z.to_nat n = (length data + (Z.to_nat n - length data))%nat) by lia.
  rewrite Hsplit at 1. rewrite seq_app, !map_app. f_equal.
  - rewrite map_map.
    rewrite map_const_repeat with (c := 1) by
      (intros j Hj; apply in_seq in Hj;
       destruct (Z.eq_dec T n) as [Heq|Hne];
       [ rewrite Heq, Z.div_same, Z.mod_same by lia;
         destruct (Z.ltb_spec (Z.of_nat j) 0); lia
       | rewrite Z.div_small, Z.mod_small by lia;
         destruct (Z.ltb_spec (Z.of_nat j) T); lia ]).
    rewrite length_seq. reflexivity.
  - rewrite map_map.
    rewrite map_const_repeat with (c := 0) by
      (intros j Hj; apply in_seq in Hj;
       destruct (Z.eq_dec T n) as [Heq|Hne];
       [ lia
       | rewrite Z.div_small, Z.mod_small by lia;
         destruct (Z.ltb_spec (Z.of_nat j) T); lia ]).
    rewrite length_seq. reflexivity.
Qed.

(** X3.  With at least as many batches as elements, the first batches hold
    the elements one by one, in order, and the batches after them are
    empty: no batch holds two elements. *)
Theorem chunk_data_many_batches (data : list A) (n : Z) :
  1 <= n -> Z.of_nat (length data) <= n ->
  chunk_data data n =
  Ok (map (fun x => [x]) data ++ repeat [] (Z.to_nat n - length data)).
Proof. exact (@chunk_data_one_each data n). Qed.

End Chunking.

(** The theorem at work: seven items in three batches. *)
Lemma chunk_data_partition_witness :
  1 <= 3 /\
  exists chunks : list (list Z),
    chunk_data [10; 20; 30; 40; 50; 60; 70] 3 = Ok chunks /\
    Z.of_nat (length chunks) = 3 /\
    Forall (fun c => Z.of_nat (length c) = 7 / 3 \/ Z.of_nat (length c) = 7 / 3 + 1) chunks /\
    total_size chunks = 7 /\
    concat chunks = [10; 20; 30; 40; 50; 60; 70].
Proof.
  split; [lia|].
  apply (@chunk_data_partition Z [10; 20; 30; 40; 50; 60; 70] 3). lia.
Defined.

Example chunk_data_7_3 :
  chunk_data [10; 20; 30; 40; 50; 60; 70] 3 = Ok [[10; 20; 30]; [40; 50]; [60; 70]].
Proof. reflexivity. Qed.

Example chunk_data_2_5 :
  chunk_data [1; 2] 5 = Ok [[1]; [2]; []; []; []].
Proof. reflexivity. Qed.

Example chunk_data_zero_batches :
  chunk_data (@nil Z) 0 = Raise ZeroDivisionError.
Proof. reflexivity. Qed.

Lemma chunk_data_no_batches_witness :
  -2 <= 0 /\
  chunk_data [10; 20; 30] (-2) = (if -2 =? 0 then Raise ZeroDivisionError else Ok []).
Proof.
  split; [lia|]. apply (@chunk_data_no_batches Z [10; 20; 30] (-2)). lia.
Defined.

Lemma chunk_data_sizes_witness :
  1 <= 3 /\
  exists chunks : list (list Z),
    chunk_data [10; 20; 30; 40; 50; 60; 70] 3 = Ok chunks /\
    map (fun c => Z.of_nat (length c)) chunks =
    map (fun j => Z.of_nat (length [10; 20; 30; 40; 50; 60; 70]) / 3 +
                  (if j <? Z.of_nat (length [10; 20; 30; 40; 50; 60; 70]) mod 3
                   then 1 else 0))
        (py_range 3).
Proof.
  split; [lia|]. apply (@chunk_data_sizes Z [10; 20; 30; 40; 50; 60; 70] 3). lia.
Defined.

Lemma chunk_data_many_batches_witness :
  1 <= 5 /\ Z.of_nat (length [1; 2]) <= 5 /\
  chunk_data [1; 2] 5 =
  Ok (map (fun x => [x]) [1; 2] ++ repeat [] (Z.to_nat 5 - length [1; 2])).
Proof.
  split; [lia|]. split; [simpl; lia|].
  apply (@chunk_data_many_batches Z [1; 2] 5); simpl; lia.
Defined.

(** * The worker: [scrape_urls] on one batch *)

Section Worker.

Variable E : environment.

#[local] Arguments Nat.modulo : simpl never.

(** ** The state after the small operations *)

Lemma report_progress_frame (w : world) :
  scraped_count (report_progress E w) = scraped_count w /\
  total_urls (report_progress E w) = total_urls w /\
  result_file (report_progress E w) = result_file w /\
  error_file (report_progress E w) = error_file w.
Proof.
  unfold report_progress.
  destruct (scraped_count w mod 10 =? 0)%nat;
    match goal with |- context [if ?c then _ else _] => destruct c end;
    simpl; auto.
Qed.

Lemma update_progress_count (w : world) :
  scraped_count (update_progress E w) = S (scraped_count w).
Proof.
  unfold update_progress.
  destruct (report_progress_frame (set_scraped_count (S (scraped_count w)) w)) as (H & _).
  rewrite H. reflexivity.
Qed.

Lemma update_progress_frame (w : world) :
  total_urls (update_progress E w) = total_urls w /\
  result_file (update_progress E w) = result_file w /\
  error_file (update_progress E w) = error_file w.
Proof.
  unfold update_progress.
  destruct (report_progress_frame (set_scraped_count (S (scraped_count w)) w))
    as (_ & H1 & H2 & H3).
  rewrite H1, H2, H3. auto.
Qed.

(** The lines [save_to_csv] logs touch nothing but the log. *)
Lemma saved_lines_frame (d : list ResultRow) (w : world) :
  let w' := fold_left (fun acc r => logging (LogSaved (fst r)) acc) d w in
  scraped_count w' = scraped_count w /\ total_urls w' = total_urls w /\
  result_file w' = result_file w /\ error_file w' = error_file w.
Proof.
  revert w. induction d as [|r d IH]; intros w; simpl.
  - auto.
  - destruct (IH (logging (LogSaved (fst r)) w)) as (H1 & H2 & H3 & H4).
    simpl in *. auto.
Qed.

(** [save_to_csv] leaves the counters and the error file alone and adds
    to the result file the rows that were flushed before any fault. *)
Lemma save_to_csv_frame (data : list ResultRow) (w : world) :
  let w' := save_to_csv E data w in
  scraped_count w' = scraped_count w /\ total_urls w' = total_urls w /\
  error_file w' = error_file w /\
  result_file w' =
    result_file w ++
    match result_file_fault E (map to_sink_row data) with
    | None => map to_sink_row data
    | Some (logged, stored, _) => firstn (Nat.min stored logged) (map to_sink_row data)
    end.
Proof.
  unfold save_to_csv.
  destruct (result_file_fault E (map to_sink_row data)) as [[[l s] e]|]; simpl.
  - destruct (saved_lines_frame (firstn l data)
                (write_results (firstn (Nat.min s l) (map to_sink_row data)) w))
      as (H1 & H2 & H3 & H4).
    simpl in *. auto.
  - destruct (saved_lines_frame data (write_results (map to_sink_row data) w))
      as (H1 & H2 & H3 & H4).
    simpl in *. auto.
Qed.

(** ** One item *)

(** The [try] / [except] of an item always appends exactly one row to the
    in-memory results; it touches neither the counters nor the result
    file. *)
Lemma scrape_item_results (row : WorkItem) (results : list ResultRow) (w : world) :
  exists (r : result unit) (w' : world),
    scrape_item E row results w = (r, results ++ [item_result E row], w') /\
    scraped_count w' = scraped_count w /\ total_urls w' = total_urls w /\
    result_file w' = result_file w.
Proof.
  destruct row as [book_id url].
  unfold scrape_item, item_result, item_description, extracted, handle_failure,
    log_error_to_csv; simpl.
  destruct (fetch E url) as [text|e]; simpl.
  - destruct (find_description E text) as [[d|]|e]; simpl.
    + eexists _, _; split; [reflexivity|]. simpl. auto.
    + eexists _, _; split; [reflexivity|]. simpl. auto.
    + destruct (error_file_fault E _) as [[[|] e']|];
        eexists _, _; (split; [reflexivity|]); simpl; auto.
  - destruct (error_file_fault E _) as [[[|] e']|];
      eexists _, _; (split; [reflexivity|]); simpl; auto.
Qed.

(** With a reliable error file nothing is left pending, and the error
    file receives the item's error rows. *)
Lemma scrape_item_reliable (row : WorkItem) (results : list ResultRow) (w : world) :
  error_file_reliable E ->
  exists w' : world,
    scrape_item E row results w = (Ok tt, results ++ [item_result E row], w') /\
    scraped_count w' = scraped_count w /\ total_urls w' = total_urls w /\
    result_file w' = result_file w /\
    error_file w' = error_file w ++ item_errors E row.
Proof.
  intros Hrel. destruct row as [book_id url].
  unfold scrape_item, item_result, item_description, item_errors, item_exception,
    extracted, handle_failure, log_error_to_csv; simpl.
  destruct (fetch E url) as [text|e]; simpl.
  - destruct (find_description E text) as [[d|]|e]; simpl.
    + eexists; split; [reflexivity|]. simpl. rewrite app_nil_r. auto.
    + eexists; split; [reflexivity|]. simpl. rewrite app_nil_r. auto.
    + rewrite Hrel. eexists; split; [reflexivity|]. simpl. auto.
  - rewrite Hrel. eexists; split; [reflexivity|]. simpl. auto.
Qed.

(** ** The loop *)

Lemma scrape_loop_reliable (data : list WorkItem) :
  error_file_reliable E ->
  forall (results : list ResultRow) (w : world),
  exists w' : world,
    scrape_loop E data results w = (Ok (results ++ map (item_result E) data), w') /\
    scraped_count w' = (scraped_count w + length data)%nat /\
    total_urls w' = total_urls w /\
    result_file w' = result_file w /\
    error_file w' = error_file w ++ flat_map (item_errors E) data.
Proof.
  intros Hrel. induction data as [|row rest IH]; intros results w; simpl.
  - exists w. rewrite !app_nil_r, Nat.add_0_r. auto.
  - destruct (scrape_item_reliable row results w Hrel)
      as (w1 & Hitem & Hc & Ht & Hr & He).
    rewrite Hitem.
    destruct (IH (results ++ [item_result E row]) (update_progress E w1))
      as (w' & Hloop & Hc' & Ht' & Hr' & He').
    exists w'. rewrite Hloop.
    destruct (update_progress_frame w1) as (Ft & Fr & Fe).
    rewrite update_progress_count in Hc'.
    rewrite <- !app_assoc. simpl.
    repeat split; try congruence.
    + lia.
    + rewrite He', Fe, He, <- app_assoc. reflexivity.
Qed.

(** The loop on a list in two parts: the second part starts where the
    first one stopped. *)
Lemma scrape_loop_app (before after : list WorkItem) :
  forall (results : list ResultRow) (w : world),
    scrape_loop E (before ++ after) results w =
    match scrape_loop E before results w with
    | (Ok results1, w1) => scrape_loop E after results1 w1
    | (Raise e, w1) => (Raise e, w1)
    end.
Proof.
  induction before as [|row rest IH]; intros results w; simpl.
  - reflexivity.
  - destruct (scrape_item E row results w) as [[r results1] w1].
    destruct r as [u|e]; [apply IH | reflexivity].
Qed.

(** ** What a batch leaves in the two files *)

(** With reliable files a batch is run to its end and saved. *)
Lemma scrape_urls_files (data : list WorkItem) (w : world) :
  error_file_reliable E -> result_file_reliable E ->
  exists w' : world,
    scrape_urls E data w = (Ok "Scraping complete", w') /\
    result_file w' =
      result_file w ++ map (fun item => DataRow (fst item) (item_description E item)) data /\
    error_file w' = error_file w ++ flat_map (item_errors E) data.
Proof.
  intros Herr Hres. unfold scrape_urls.
  destruct (scrape_loop_reliable data Herr [] w) as (w1 & Hloop & Hc & Ht & Hr & He).
  rewrite Hloop. simpl app.
  exists (save_to_csv E (map (item_result E) data) w1).
  destruct (save_to_csv_frame (map (item_result E) data) w1) as (_ & _ & Fe & Fr).
  rewrite Hres in Fr.
  split; [reflexivity|]. split.
  - rewrite Fr, Hr, map_map. reflexivity.
  - rewrite Fe, He. reflexivity.
Qed.

(** C1, as the code has it.  When no append to either file fails,
    [scrape_urls] returns normally and every item of the batch gets
    exactly one row in the result file, in the order of the batch; an
    item gets a row in the error file too exactly when its fetch or its
    extraction raised, and its result row then has no description.  So a
    failed item has a row in both files, and no item has none. *)
Theorem scrape_urls_rows (data : list WorkItem) (w : world) :
  error_file_reliable E -> result_file_reliable E ->
  exists w' : world,
    scrape_urls E data w = (Ok "Scraping complete", w') /\
    result_file w' =
      result_file w ++ map (fun item => DataRow (fst item) (item_description E item)) data /\
    error_file w' = error_file w ++ flat_map (item_errors E) data /\
    forall item : WorkItem,
      match item_exception E item with
      | Some e =>
          item_errors E item = [ErrorRow (fst item) (snd item) (str_exn e)] /\
          item_description E item = None
      | None => item_errors E item = []
      end.
Proof.
  intros Herr Hres.
  destruct (scrape_urls_files data w Herr Hres) as (w' & Hrun & Hr & He).
  exists w'. repeat split; try assumption.
  intros item. unfold item_errors, item_description, item_exception.
  destruct (extracted E (snd item)); auto.
Qed.

(** ** Failure isolation *)

(** What holds of a failed item when the error file takes its row.  Take a
    batch and an item in it whose fetch or extraction raises [e].  The
    handler catches [e]: the item gets the result [(book_id, None)], and
    what is pending after the handler is nothing, or an exception raised by
    the append of the item's row to the error file.  With an error file
    that accepts the handler's row the loop gets past the item with nothing
    pending, goes on with the items after it and reaches the end of the
    batch.  Without that the batch stops at the item: see
    [failure_stops_batch]. *)
Lemma failure_isolation (before after : list WorkItem) (item : WorkItem) (e : exn)
    (w : world) :
  item_exception E item = Some e ->
  (forall (results : list ResultRow) (w0 : world),
     exists (r : result unit) (w1 : world),
       scrape_item E item results w0 = (r, results ++ [(fst item, None)], w1) /\
       match r with
       | Ok _ => error_file w1 = error_file w0 ++ [ErrorRow (fst item) (snd item) (str_exn e)]
       | Raise e' =>
           exists logged : bool,
             error_file_fault E (ErrorRow (fst item) (snd item) (str_exn e)) =
             Some (logged, e')
       end) /\
  (error_file_reliable E ->
   exists w_i w_end : world,
     scrape_loop E (before ++ [item]) [] w =
       (Ok (map (item_result E) (before ++ [item])), w_i) /\
     item_result E item = (fst item, None) /\
     In (ErrorRow (fst item) (snd item) (str_exn e)) (error_file w_i) /\
     scrape_loop E (before ++ item :: after) [] w =
       scrape_loop E after (map (item_result E) (before ++ [item])) w_i /\
     scrape_loop E after (map (item_result E) (before ++ [item])) w_i =
       (Ok (map (item_result E) (before ++ item :: after)), w_end) /\
     scraped_count w_end = (scraped_count w_i + length after)%nat /\
     scraped_count w_i = (scraped_count w + length before + 1)%nat /\
     fst (scrape_urls E (before ++ item :: after) w) = Ok "Scraping complete").
Proof.
  intros Hexn. split.
  { intros results w0. destruct item as [book_id url].
    unfold item_exception, extracted in Hexn. simpl in Hexn.
    unfold scrape_item, handle_failure, log_error_to_csv. simpl.
    destruct (fetch E url) as [text|e0].
    - destruct (find_description E text) as [[d|]|e0]; try discriminate.
      injection Hexn as ->.
      destruct (error_file_fault E (ErrorRow book_id url (str_exn e))) as [[logged e']|];
        eexists _, _; (split; [reflexivity|]); [exists logged|]; reflexivity.
    - injection Hexn as ->.
      destruct (error_file_fault E (ErrorRow book_id url (str_exn e))) as [[logged e']|];
        eexists _, _; (split; [reflexivity|]); [exists logged|]; reflexivity. }
  intros Herr.
  destruct (scrape_loop_reliable (before ++ [item]) Herr [] w)
    as (w_i & Hfirst & Hc & _ & _ & Hfile).
  destruct (scrape_loop_reliable after Herr (map (item_result E) (before ++ [item])) w_i)
    as (w_end & Hrest & Hc' & _).
  exists w_i, w_end. simpl app in Hfirst.
  assert (Hsplit : before ++ item :: after = (before ++ [item]) ++ after)
    by (rewrite <- app_assoc; reflexivity).
  assert (Hall : scrape_loop E (before ++ item :: after) [] w =
                 scrape_loop E after (map (item_result E) (before ++ [item])) w_i).
  { rewrite Hsplit, scrape_loop_app, Hfirst. reflexivity. }
  repeat split.
  - exact Hfirst.
  - unfold item_result, item_description. unfold item_exception in Hexn.
    destruct (extracted E (snd item)) as [[d|]|e0]; try discriminate. reflexivity.
  - rewrite Hfile, flat_map_app. apply in_or_app. right. apply in_or_app. right.
    simpl. unfold item_errors. rewrite Hexn. left. reflexivity.
  - exact Hall.
  - rewrite Hrest, Hsplit.
    rewrite (map_app (item_result E) (before ++ [item]) after). reflexivity.
  - exact Hc'.
  - rewrite Hc, length_app. simpl. lia.
  - unfold scrape_urls. rewrite Hall, Hrest. reflexivity.
Qed.

(** ** Pages without a usable description *)

(** What holds of a page without a usable description.  When the fetch
    succeeds and the page has no description div, or the stripped text of
    the div has fewer than 10 characters, the [try] block appends
    [(book_id, None)] to the results, leaves nothing pending and does not
    touch the error file; and in a batch that is saved (no append
    failing), the row [DataRow book_id None] is in the result file while
    the error file only receives the rows of the other items.  In a batch
    that is not saved the row is lost: see [extraction_miss_lost]. *)
Lemma extraction_miss_is_success (book_id : Z) (url text : string)
    (results : list ResultRow) (w : world) :
  fetch E url = Ok text ->
  (find_description E text = Ok None \/
   exists d : string,
     find_description E text = Ok (Some d) /\ (py_len d < 10)%nat) ->
  (exists w1 : world,
     scrape_item E (book_id, url) results w = (Ok tt, results ++ [(book_id, None)], w1) /\
     error_file w1 = error_file w /\ result_file w1 = result_file w) /\
  item_exception E (book_id, url) = None /\
  forall (before after : list WorkItem) (w0 : world),
    error_file_reliable E -> result_file_reliable E ->
    let w' := snd (scrape_urls E (before ++ (book_id, url) :: after) w0) in
    result_file w' =
      result_file w0 ++
      map (fun item => DataRow (fst item) (item_description E item)) before ++
      DataRow book_id None ::
      map (fun item => DataRow (fst item) (item_description E item)) after /\
    error_file w' = error_file w0 ++ flat_map (item_errors E) (before ++ after).
Proof.
  intros Hfetch Hmiss.
  assert (Hdesc : item_description E (book_id, url) = None).
  { unfold item_description, extracted; simpl. rewrite Hfetch.
    destruct Hmiss as [Hnone | (d & Hd & Hlen)].
    - rewrite Hnone. reflexivity.
    - rewrite Hd. apply Nat.ltb_lt in Hlen. rewrite Hlen. reflexivity. }
  assert (Hexn : item_exception E (book_id, url) = None).
  { unfold item_exception, extracted; simpl. rewrite Hfetch.
    destruct Hmiss as [Hnone | (d & Hd & _)]; [rewrite Hnone | rewrite Hd]; reflexivity. }
  split; [|split; [exact Hexn|]].
  - unfold scrape_item. rewrite Hfetch.
    destruct Hmiss as [Hnone | (d & Hd & Hlen)].
    + rewrite Hnone. eexists; split; [reflexivity|]. simpl. auto.
    + rewrite Hd. apply Nat.ltb_lt in Hlen. rewrite Hlen.
      eexists; split; [reflexivity|]. simpl. auto.
  - intros before after w0 Herr Hres w'.
    destruct (scrape_urls_files (before ++ (book_id, url) :: after) w0 Herr Hres)
      as (w2 & Hrun & Hr & He).
    subst w'. rewrite Hrun. simpl snd.
    rewrite Hr, He, map_app, !flat_map_app. simpl.
    rewrite Hdesc. unfold item_errors at 2. rewrite Hexn. simpl.
    split; reflexivity.
Qed.

(** ** The progress lines *)

(** C8, as the code has it.  After the increment, the estimate is computed
    and logged exactly when the new count is a multiple of 10; when the
    new count equals [total_urls] the line "All URLs scraped" is logged
    (after the estimate, if there is one), and that alone logs no
    estimate. *)
Theorem update_progress_log (w : world) :
  let c := S (scraped_count w) in
  log (update_progress E w) =
    log w ++
    (if (c mod 10 =? 0)%nat
     then [LogProgress c (total_urls w)
             (approx_time_left (elapsed_at E c) c (total_urls w))]
     else []) ++
    (if (c =? total_urls w)%nat then [LogAllScraped] else []).
Proof.
  unfold update_progress, report_progress.
  cbn [scraped_count set_scraped_count total_urls].
  destruct (S (scraped_count w) mod 10 =? 0)%nat;
    cbn [total_urls logging set_scraped_count];
    destruct (S (scraped_count w) =? total_urls w)%nat;
    cbn [log logging set_scraped_count]; rewrite <- ?app_assoc, ?app_nil_r; reflexivity.
Qed.

(** ** The sink of the results, in full *)

Lemma saved_lines_log (d : list ResultRow) (w : world) :
  log (fold_left (fun acc r => logging (LogSaved (fst r)) acc) d w) =
  log w ++ map (fun r => LogSaved (fst r)) d.
Proof.
  revert w. induction d as [|r d IH]; intros w; simpl.
  - rewrite app_nil_r. reflexivity.
  - rewrite IH. simpl. rewrite <- app_assoc. reflexivity.
Qed.

(** What [save_to_csv] leaves behind: it touches neither the counters nor
    the error file.  Without a fault it appends every row, in order, and
    logs one line per row.  On a fault the rows in the file are a prefix
    of those that have their line in the log, and one error line follows
    that lists the ids of all the rows of the call. *)
Lemma firstn_min_length (A : Type) (k : nat) (l : list A) :
  firstn (Nat.min k (length l)) l = firstn k l.
Proof.
  destruct (Nat.le_ge_cases k (length l)) as [H|H].
  - rewrite Nat.min_l by exact H. reflexivity.
  - rewrite Nat.min_r by exact H. rewrite !firstn_all2 by lia. reflexivity.
Qed.

Lemma save_to_csv_full (data : list ResultRow) (w : world) :
  let w' := save_to_csv E data w in
  result_file w' = result_file w ++ map to_sink_row (firstn (rows_written E data) data) /\
  log w' =
    log w ++ map (fun r => LogSaved (fst r)) (firstn (lines_logged E data) data) ++
    match result_file_fault E (map to_sink_row data) with
    | None => []
    | Some (_, _, e) => [LogSaveError (map fst data) e]
    end /\
  (rows_written E data <= lines_logged E data)%nat /\
  scraped_count w' = scraped_count w /\ total_urls w' = total_urls w /\
  error_file w' = error_file w.
Proof.
  unfold save_to_csv, rows_written, lines_logged, row_ids.
  destruct (result_file_fault E (map to_sink_row data)) as [[[l s] e]|]; cbn zeta.
  - rewrite !firstn_min_length.
    destruct (saved_lines_frame (firstn l data)
                (write_results (firstn (Nat.min s l) (map to_sink_row data)) w))
      as (H1 & H2 & H3 & H4).
    cbn [logging result_file log scraped_count total_urls error_file].
    rewrite saved_lines_log, H1, H2, H3, H4. cbn [write_results result_file log
      scraped_count total_urls error_file].
    rewrite firstn_map, <- app_assoc.
    repeat split; try reflexivity. lia.
  - destruct (saved_lines_frame data (write_results (map to_sink_row data) w))
      as (H1 & H2 & H3 & H4).
    rewrite saved_lines_log, H1, H2, H3, H4. cbn [write_results result_file log
      scraped_count total_urls error_file].
    rewrite firstn_all, app_nil_r. repeat split; reflexivity.
Qed.

(** ** The lines each operation logs *)

Lemma progress_lines_app (a b : list log_event) :
  progress_lines (a ++ b) = (progress_lines a + progress_lines b)%nat.
Proof. unfold progress_lines. rewrite filter_app, length_app. reflexivity. Qed.

Lemma all_scraped_lines_app (a b : list log_event) :
  all_scraped_lines (a ++ b) = (all_scraped_lines a + all_scraped_lines b)%nat.
Proof. unfold all_scraped_lines. rewrite filter_app, length_app. reflexivity. Qed.

(** The [try] / [except] of an item appends to the log, and neither an
    estimate nor "All URLs scraped". *)
Lemma scrape_item_log (row : WorkItem) (results : list ResultRow) (w : world) :
  exists lines : list log_event,
    log (snd (scrape_item E row results w)) = log w ++ lines /\
    progress_lines lines = 0%nat /\ all_scraped_lines lines = 0%nat.
Proof.
  destruct row as [book_id url].
  unfold scrape_item, handle_failure, log_error_to_csv; simpl.
  destruct (fetch E url) as [text|e]; simpl.
  - destruct (find_description E text) as [[d|]|e]; simpl.
    + eexists; split; [reflexivity|]. split; reflexivity.
    + eexists; split; [reflexivity|]. split; reflexivity.
    + destruct (error_file_fault E _) as [[[|] e']|]; simpl;
        rewrite <- ?app_assoc; eexists; (split; [reflexivity|]); split; reflexivity.
  - destruct (error_file_fault E _) as [[[|] e']|]; simpl;
      rewrite <- ?app_assoc; eexists; (split; [reflexivity|]); split; reflexivity.
Qed.

(** The lines of the [with lock_count:] block. *)
Lemma report_progress_log (w : world) :
  log (report_progress E w) =
    log w ++
    (if (scraped_count w mod 10 =? 0)%nat
     then [LogProgress (scraped_count w) (total_urls w)
             (approx_time_left (elapsed_at E (scraped_count w)) (scraped_count w)
                (total_urls w))]
     else []) ++
    (if (scraped_count w =? total_urls w)%nat then [LogAllScraped] else []).
Proof.
  unfold report_progress.
  destruct (scraped_count w mod 10 =? 0)%nat;
    cbn [total_urls logging];
    destruct (scraped_count w =? total_urls w)%nat;
    cbn [log logging]; rewrite <- ?app_assoc, ?app_nil_r; reflexivity.
Qed.

Lemma saved_lines_none (d : list ResultRow) :
  progress_lines (map (fun r => LogSaved (fst r)) d) = 0%nat /\
  all_scraped_lines (map (fun r => LogSaved (fst r)) d) = 0%nat.
Proof.
  induction d as [|r d [IH1 IH2]]; simpl; auto.
Qed.

(** ** A batch cut short by the error file *)

(** One item, in any environment. *)
Lemma scrape_item_outcome (row : WorkItem) (results : list ResultRow) (w : world) :
  exists w' : world,
    scrape_item E row results w =
      (match append_fault E row with Some e' => Raise e' | None => Ok tt end,
       results ++ [item_result E row], w') /\
    scraped_count w' = scraped_count w /\ total_urls w' = total_urls w /\
    result_file w' = result_file w /\
    error_file w' =
      error_file w ++
      match append_fault E row with Some _ => [] | None => item_errors E row end.
Proof.
  destruct row as [book_id url].
  unfold scrape_item, append_fault, item_result, item_description, item_errors,
    item_exception, extracted, handle_failure, log_error_to_csv; simpl.
  destruct (fetch E url) as [text|e]; simpl.
  - destruct (find_description E text) as [[d|]|e]; simpl.
    + eexists; split; [reflexivity|]. simpl. rewrite app_nil_r. auto.
    + eexists; split; [reflexivity|]. simpl. rewrite app_nil_r. auto.
    + destruct (error_file_fault E _) as [[[|] e']|];
        eexists; (split; [reflexivity|]); simpl; rewrite ?app_nil_r; auto.
  - destruct (error_file_fault E _) as [[[|] e']|];
      eexists; (split; [reflexivity|]); simpl; rewrite ?app_nil_r; auto.
Qed.

(** The loop over items whose handler does not fail. *)
Lemma scrape_loop_clean (data : list WorkItem) :
  Forall (fun item => append_fault E item = None) data ->
  forall (results : list ResultRow) (w : world),
  exists w' : world,
    scrape_loop E data results w = (Ok (results ++ map (item_result E) data), w') /\
    scraped_count w' = (scraped_count w + length data)%nat /\
    total_urls w' = total_urls w /\
    result_file w' = result_file w /\
    error_file w' = error_file w ++ flat_map (item_errors E) data.
Proof.
  induction 1 as [|row rest Hrow Hrest IH]; intros results w; simpl.
  - exists w. rewrite !app_nil_r, Nat.add_0_r. auto.
  - destruct (scrape_item_outcome row results w) as (w1 & Hitem & Hc & Ht & Hr & He).
    rewrite Hrow in Hitem, He. rewrite Hitem.
    destruct (IH (results ++ [item_result E row]) (update_progress E w1))
      as (w' & Hloop & Hc' & Ht' & Hr' & He').
    exists w'. rewrite Hloop.
    destruct (update_progress_frame w1) as (Ft & Fr & Fe).
    rewrite update_progress_count in Hc'.
    rewrite <- !app_assoc. simpl.
    repeat split; try congruence.
    + lia.
    + rewrite He', Fe, He, <- app_assoc. reflexivity.
Qed.

(** X8.  When the handler's append to the error file raises for an item
    (and did not for the items before it), [scrape_urls] raises that
    exception.  The items up to and including this one are counted, the
    items after it are not; the error file has the rows of the failed
    items before it and no row for it; and nothing of the batch reaches
    the result file. *)
Theorem scrape_urls_cut_short (before after : list WorkItem) (item : WorkItem)
    (e' : exn) (w : world) :
  Forall (fun i => append_fault E i = None) before ->
  append_fault E item = Some e' ->
  exists w' : world,
    scrape_urls E (before ++ item :: after) w = (Raise e', w') /\
    scraped_count w' = (scraped_count w + length before + 1)%nat /\
    total_urls w' = total_urls w /\
    result_file w' = result_file w /\
    error_file w' = error_file w ++ flat_map (item_errors E) before.
Proof.
  intros Hbefore Hitem.
  destruct (scrape_loop_clean Hbefore [] w) as (w1 & Hloop & Hc & Ht & Hr & He).
  destruct (scrape_item_outcome item (map (item_result E) before) w1)
    as (w2 & Hstep & Hc2 & Ht2 & Hr2 & He2).
  rewrite Hitem in Hstep, He2. rewrite app_nil_r in He2.
  exists (update_progress E w2).
  destruct (update_progress_frame w2) as (Ft & Fr & Fe).
  split.
  - unfold scrape_urls. rewrite scrape_loop_app, Hloop. simpl app. simpl scrape_loop.
    rewrite Hstep. reflexivity.
  - rewrite update_progress_count, Ft, Fr, Fe.
    repeat split; try congruence. lia.
Qed.

(** C3, as the code has it.  Take an item whose fetch or extraction raises
    [e], in a batch whose earlier items went through, and let the append
    of the item's row to the error file raise [e'] ([log_error_to_csv]
    has no [try]).  Then the failure of the item is not contained:
    [scrape_urls] raises [e'], and its outcome is the same whatever items
    come after the item in the batch, so none of them is processed.  The
    counter has counted the items up to this one and no more, and nothing
    of the batch is saved. *)
Theorem failure_stops_batch (before : list WorkItem) (item : WorkItem) (e e' : exn)
    (logged : bool) (w : world) :
  Forall (fun i => append_fault E i = None) before ->
  item_exception E item = Some e ->
  error_file_fault E (ErrorRow (fst item) (snd item) (str_exn e)) = Some (logged, e') ->
  exists w' : world,
    (forall after : list WorkItem,
       scrape_urls E (before ++ item :: after) w = (Raise e', w')) /\
    scraped_count w' = (scraped_count w + length before + 1)%nat /\
    result_file w' = result_file w.
Proof.
  intros Hbefore Hexn Hfault.
  assert (Hitem : append_fault E item = Some e').
  { unfold append_fault. rewrite Hexn, Hfault. reflexivity. }
  destruct (scrape_loop_clean Hbefore [] w) as (w1 & Hloop & Hc & Ht & Hr & He).
  destruct (scrape_item_outcome item (map (item_result E) before) w1)
    as (w2 & Hstep & Hc2 & Ht2 & Hr2 & He2).
  rewrite Hitem in Hstep.
  exists (update_progress E w2).
  destruct (update_progress_frame w2) as (Ft & Fr & Fe).
  split; [|split].
  - intros after. unfold scrape_urls.
    rewrite scrape_loop_app, Hloop. simpl app. simpl scrape_loop.
    rewrite Hstep. reflexivity.
  - rewrite update_progress_count. lia.
  - congruence.
Qed.

(** C9, as the code has it.  A page that is fetched and has no description
    div, or a text of fewer than 10 characters, makes the item a success
    with description [None] in memory: nothing is pending and the error
    file is not touched.  But the row is written with the batch only: when
    the next item of the batch fails and the append of its row to the
    error file raises, [scrape_urls] raises before [save_to_csv], and the
    item without description is recorded in neither file. *)
Theorem extraction_miss_lost (book_id : Z) (url text : string) (item : WorkItem)
    (e' : exn) (after : list WorkItem) (w : world) :
  fetch E url = Ok text ->
  (find_description E text = Ok None \/
   exists d : string,
     find_description E text = Ok (Some d) /\ (py_len d < 10)%nat) ->
  append_fault E item = Some e' ->
  (exists w1 : world,
     scrape_item E (book_id, url) [] w = (Ok tt, [(book_id, None)], w1) /\
     error_file w1 = error_file w) /\
  exists w' : world,
    scrape_urls E ((book_id, url) :: item :: after) w = (Raise e', w') /\
    result_file w' = result_file w /\
    error_file w' = error_file w.
Proof.
  intros Hfetch Hmiss Hitem.
  destruct (@extraction_miss_is_success book_id url text [] w Hfetch Hmiss)
    as ((w0 & Hmem & Hfile & _) & Hexn & _).
  split; [exists w0; split; [exact Hmem | exact Hfile]|].
  assert (Hnone : item_errors E (book_id, url) = []).
  { unfold item_errors. rewrite Hexn. reflexivity. }
  set (before := [(book_id, url)]).
  assert (Hclean : Forall (fun i => append_fault E i = None) before).
  { constructor; [|constructor]. unfold append_fault. rewrite Hexn. reflexivity. }
  destruct (scrape_loop_clean Hclean [] w) as (w1 & Hloop & Hc & Ht & Hr & He).
  destruct (scrape_item_outcome item (map (item_result E) before) w1)
    as (w2 & Hstep & Hc2 & Ht2 & Hr2 & He2).
  rewrite Hitem in Hstep, He2. rewrite app_nil_r in He2.
  exists (update_progress E w2).
  destruct (update_progress_frame w2) as (Ft & Fr & Fe).
  split; [|split].
  - unfold scrape_urls.
    change ((book_id, url) :: item :: after) with (before ++ item :: after).
    rewrite scrape_loop_app, Hloop. simpl app. simpl scrape_loop.
    unfold before in Hstep. simpl map in Hstep.
    rewrite Hstep. reflexivity.
  - congruence.
  - rewrite Fe, He2, He. unfold before. simpl flat_map. rewrite Hnone.
    rewrite !app_nil_r. reflexivity.
Qed.

End Worker.

(** * Reading the input *)

Section Reading.

Variable E : environment.

Lemma read_rows_spec (rows : list (list string)) :
  forall (acc : list WorkItem) (w : world),
    read_rows E rows acc w =
    (acc ++ well_formed_items E rows,
     World (scraped_count w) (total_urls w) (result_file w) (error_file w)
           (log w ++ flat_map (row_log E) rows)).
Proof.
  induction rows as [|row rest IH]; intros acc w; simpl.
  - rewrite !app_nil_r. destruct w; reflexivity.
  - unfold row_log at 1. destruct (parse_row E row) as [item|[|]]; rewrite IH; simpl.
    + rewrite <- app_assoc. reflexivity.
    + rewrite <- app_assoc. reflexivity.
    + rewrite <- app_assoc. reflexivity.
Qed.

Lemma parse_row_ok (row : list string) :
  match parse_row E row with
  | inl _ => row_ok E row = true
  | inr _ => row_ok E row = false
  end.
Proof.
  unfold parse_row, row_ok.
  destruct row as [|c0 [|c1 [|c2 more]]]; simpl; try reflexivity.
  - destruct (py_int E c1); reflexivity.
  - destruct (py_int E c1); reflexivity.
Qed.

(** As many items as rows that are in order. *)
Lemma well_formed_items_length (rows : list (list string)) :
  length (well_formed_items E rows) = length (filter (row_ok E) rows).
Proof.
  induction rows as [|row rows IH]; simpl; [reflexivity|].
  pose proof (parse_row_ok row) as Hrow.
  destruct (parse_row E row) as [item|err]; rewrite Hrow; simpl; rewrite IH; reflexivity.
Qed.

Lemma batch_count_0 : batch_count 0 = 0.
Proof. reflexivity. Qed.

(** One item is enough for 22 batches. *)
Lemma batch_count_pos (total : nat) : (0 < total)%nat -> 22 <= batch_count total.
Proof.
  intros H. unfold batch_count, MAX_WORKERS.
  change 22 with (Z.sqrt (22 * 22)).
  apply Z.sqrt_le_mono. lia.
Qed.

Lemma batch_count_zero_inv (total : nat) : batch_count total = 0 -> total = 0%nat.
Proof.
  intros H. destruct total as [|t]; [reflexivity|].
  pose proof (@batch_count_pos (S t)) as Hpos. lia.
Qed.

(** When [chunk_data] returns for the items read, its batches hold the
    items; when it raises, there was no item. *)
Lemma chunk_items_cases (items : list WorkItem) :
  match chunk_data items (batch_count (length items)) with
  | Ok batches => concat batches = items
  | Raise _ => items = []
  end.
Proof.
  destruct items as [|item items'].
  - reflexivity.
  - destruct (@chunk_data_concat WorkItem (item :: items')
                (batch_count (length (item :: items'))))
      as (chunks & Hchunks & Hconcat).
    + pose proof (@batch_count_pos (length (item :: items'))) as Hpos.
      simpl length in *. lia.
    + rewrite Hchunks. exact Hconcat.
Qed.

(** What [read_id_url_pairs_from_csv] returns and leaves behind. *)
Lemma read_id_url_pairs_spec (rows : list (list string)) (w : world) :
  let items := well_formed_items E rows in
  read_id_url_pairs_from_csv E rows w =
  (chunk_data items (batch_count (length items)),
   World (scraped_count w) (length items) (result_file w) (error_file w)
         (log w ++ flat_map (row_log E) rows ++ [LogRead (length items)])).
Proof.
  unfold read_id_url_pairs_from_csv. rewrite read_rows_spec.
  unfold set_total_urls, logging. simpl.
  rewrite <- app_assoc. reflexivity.
Qed.

(** C10.  The id of a row is the integer in its second column and the url
    is its third column, whatever the first column and the columns after
    the third hold; a row with fewer than three columns, or whose second
    column is not an integer, is skipped; [total_urls] counts the rows that
    were kept, and the batches hold their items and nothing else.  A row
    of two columns with an integer in the second is refused with the line
    that asks for at least two columns. *)
Theorem read_rows_columns (rows : list (list string)) (w : world) :
  (forall (c0 c1 c2 : string) (more : list string) (book_id : Z),
     py_int E c1 = Some book_id ->
     parse_row E (c0 :: c1 :: c2 :: more) = inl (book_id, c2)) /\
  (forall row : list string,
     (length row < 3)%nat -> exists err : row_error, parse_row E row = inr err) /\
  (forall (row : list string) (c1 : string),
     nth_error row 1 = Some c1 -> py_int E c1 = None ->
     parse_row E row = inr RowValueError) /\
  (forall (c0 c1 : string) (book_id : Z) (w0 : world),
     py_int E c1 = Some book_id ->
     parse_row E [c0; c1] = inr RowIndexError /\
     read_rows E [[c0; c1]] [] w0 = ([], logging (LogRowIndexError [c0; c1]) w0) /\
     log_text (LogRowIndexError [c0; c1]) =
       "Error reading row {row}: Row must have at least two columns") /\
  (let '(r, w') := read_id_url_pairs_from_csv E rows w in
   total_urls w' = length (filter (row_ok E) rows) /\
   forall batches : list (list WorkItem),
     r = Ok batches -> concat batches = well_formed_items E rows).
Proof.
  split; [|split; [|split; [|split]]].
  - intros c0 c1 c2 more book_id Hint. unfold parse_row; simpl. rewrite Hint. reflexivity.
  - intros row Hlen. unfold parse_row.
    destruct row as [|c0 [|c1 [|c2 more]]]; simpl in *; try lia.
    + eexists; reflexivity.
    + eexists; reflexivity.
    + destruct (py_int E c1); eexists; reflexivity.
  - intros row c1 Hc1 Hint. unfold parse_row. rewrite Hc1, Hint. reflexivity.
  - intros c0 c1 book_id w0 Hint.
    assert (Hrow : parse_row E [c0; c1] = inr RowIndexError)
      by (unfold parse_row; simpl; rewrite Hint; reflexivity).
    split; [exact Hrow|]. split; [|reflexivity].
    simpl. rewrite Hrow. reflexivity.
  - rewrite read_id_url_pairs_spec. simpl. split; [apply well_formed_items_length|].
    intros batches Hok.
    pose proof (chunk_items_cases (well_formed_items E rows)) as Hcases.
    rewrite Hok in Hcases. exact Hcases.
Qed.

(** ** The number of batches against the number of items *)

(** Up to 512 items there are at least as many batches as items. *)
Lemma batch_count_ge (total : nat) :
  (total <= 512)%nat -> Z.of_nat total <= batch_count total.
Proof.
  intros H. unfold batch_count, MAX_WORKERS.
  rewrite <- (Z.sqrt_square (Z.of_nat total)) at 1 by lia.
  apply Z.sqrt_le_mono. nia.
Qed.

(** Beyond 512 items there are fewer batches than items. *)
Lemma batch_count_lt (total : nat) :
  (512 < total)%nat -> batch_count total < Z.of_nat total.
Proof.
  intros H. unfold batch_count, MAX_WORKERS.
  apply Z.sqrt_lt_square; nia.
Qed.

(** X4.  An input of 1 to 512 well-formed rows is cut into batches of one
    item each, in the order of the file, followed by empty batches: every
    call of [scrape_urls] gets at most one item. *)
Theorem small_input_batches (rows : list (list string)) (w : world) :
  (1 <= length (well_formed_items E rows) <= 512)%nat ->
  fst (read_id_url_pairs_from_csv E rows w) =
  Ok (map (fun item => [item]) (well_formed_items E rows) ++
      repeat [] (Z.to_nat (batch_count (length (well_formed_items E rows))) -
                 length (well_formed_items E rows))).
Proof.
  intros [Hlo Hhi]. rewrite read_id_url_pairs_spec. simpl fst.
  apply chunk_data_one_each.
  - pose proof (@batch_count_pos (length (well_formed_items E rows)) Hlo). lia.
  - apply batch_count_ge. exact Hhi.
Qed.

(** X5.  With more than 512 well-formed rows there are fewer batches than
    items: the batches returned are as many as the batch count, which is
    below the number of items, and the first batch holds at least two
    items. *)
Theorem large_input_first_batch (rows : list (list string)) (w : world) :
  (512 < length (well_formed_items E rows))%nat ->
  batch_count (length (well_formed_items E rows)) <
    Z.of_nat (length (well_formed_items E rows)) /\
  exists (first : list WorkItem) (others : list (list WorkItem)),
    fst (read_id_url_pairs_from_csv E rows w) = Ok (first :: others) /\
    Z.of_nat (length (first :: others)) =
      batch_count (length (well_formed_items E rows)) /\
    (2 <= length first)%nat.
Proof.
  intros Hbig. rewrite read_id_url_pairs_spec. simpl fst.
  set (items := well_formed_items E rows) in *.
  set (T := Z.of_nat (length items)).
  set (n := batch_count (length items)).
  assert (Hn : 22 <= n) by (apply batch_count_pos; lia).
  assert (Hlt : n < T) by (apply batch_count_lt; exact Hbig).
  assert (Hm : 0 <= T mod n < n) by (apply Z.mod_pos_bound; lia).
  assert (Hk : 0 <= T / n) by (apply Z.div_pos; lia).
  assert (HT : T = n * (T / n) + T mod n) by (apply Z.div_mod; lia).
  split; [exact Hlt|].
  rewrite chunk_data_chunks_upto by lia. fold T n.
  destruct (Z.to_nat n) as [|n'] eqn:Hnat; [lia|].
  unfold chunks_upto. simpl map.
  eexists _, _. split; [reflexivity|].
  split; [simpl length; rewrite !length_map, length_seq; lia|].
  pose proof (@chunk_slice_length WorkItem items (T / n) (T mod n) n Hk Hm HT 0%nat
                ltac:(lia)) as Hsize.
  simpl Z.of_nat in Hsize. simpl Z.add in Hsize.
  destruct (Z.ltb_spec 0 (T mod n)); nia.
Qed.

(** ** Every row is accounted for *)

Lemma row_log_length (rows : list (list string)) :
  (length (well_formed_items E rows) + length (flat_map (row_log E) rows) =
   length rows)%nat.
Proof.
  induction rows as [|row rows IH]; simpl; [reflexivity|].
  unfold row_log at 1.
  destruct (parse_row E row) as [item|[|]]; simpl; rewrite ?length_app; simpl; lia.
Qed.

(** X6.  Reading accounts for every row: a row is kept as an item or it
    gets one line in the log that names it, and the line with the number
    of pairs comes last.  Reading writes to no file and leaves the counter
    alone. *)
Theorem every_row_kept_or_logged (rows : list (list string)) (w : world) :
  let w' := snd (read_id_url_pairs_from_csv E rows w) in
  log w' = log w ++ flat_map (row_log E) rows ++ [LogRead (total_urls w')] /\
  (total_urls w' + length (flat_map (row_log E) rows) = length rows)%nat /\
  (forall ev : log_event,
     In ev (flat_map (row_log E) rows) ->
     exists row : list string,
       In row rows /\ row_ok E row = false /\
       (ev = LogRowValueError row \/ ev = LogRowIndexError row)) /\
  result_file w' = result_file w /\ error_file w' = error_file w /\
  scraped_count w' = scraped_count w.
Proof.
  rewrite read_id_url_pairs_spec. simpl.
  split; [reflexivity|]. split; [apply row_log_length|].
  split; [|auto].
  intros ev Hev. apply in_flat_map in Hev. destruct Hev as (row & Hrow & Hin).
  exists row. split; [exact Hrow|].
  unfold row_log in Hin. pose proof (parse_row_ok row) as Hok.
  destruct (parse_row E row) as [item|[|]]; simpl in Hin.
  - destruct Hin.
  - destruct Hin as [<-|[]]. auto.
  - destruct Hin as [<-|[]]. auto.
Qed.

End Reading.

(** Reading on an example: the first column is ignored, the
    two-column row and the row without an integer are skipped. *)
Example read_rows_example :
  read_rows example_env
    [["x"; "1"; "http://a"]; ["7"; "2"]; ["y"; "two"; "http://b"]; ["z"; "-3"; "http://c"; "w"]]
    [] (initial_world [] []) =
  ([(1, "http://a"); (-3, "http://c")],
   World 0 0 [] [] [LogRowIndexError ["7"; "2"]; LogRowValueError ["y"; "two"; "http://b"]]).
Proof. reflexivity. Qed.

(** * The thread pool *)

Section Pool.

Variable E : environment.

#[local] Arguments Nat.modulo : simpl never.

(** ** Replacing one thread *)

Lemma set_nth_length (A : Type) (i : nat) (x : A) (l : list A) :
  length (set_nth i x l) = length l.
Proof.
  revert i; induction l as [|y l IH]; intros [|i]; simpl; auto.
Qed.

Lemma list_sum_set_nth (A : Type) (f : A -> nat) (l : list A) (i : nat) (t x : A) :
  nth_error l i = Some t ->
  (list_sum (map f (set_nth i x l)) + f t = list_sum (map f l) + f x)%nat.
Proof.
  revert i; induction l as [|y l IH]; intros [|i] H; simpl in *; try discriminate.
  - injection H as ->. lia.
  - specialize (IH i H). lia.
Qed.

Lemma Forall_set_nth (A : Type) (P : A -> Prop) (l : list A) (i : nat) (x : A) :
  Forall P l -> P x -> Forall P (set_nth i x l).
Proof.
  intros Hl Hx. revert i; induction Hl as [|y l Hy Hl IH]; intros [|i]; simpl; auto.
Qed.

Lemma Forall_nth_error (A : Type) (P : A -> Prop) (l : list A) (i : nat) (t : A) :
  Forall P l -> nth_error l i = Some t -> P t.
Proof.
  intros Hl H. apply nth_error_In in H. rewrite Forall_forall in Hl. auto.
Qed.

Lemma no_thread_in_critical (ts : list thread) :
  list_sum (map in_critical ts) = 0%nat -> forall c : nat, Forall (loaded_is c) ts.
Proof.
  intros H c. induction ts as [|t ts IH]; constructor.
  - destruct t; simpl in *; try exact I. discriminate.
  - apply IH. simpl in H. lia.
Qed.

(** ** The cases of a step *)

(** Splits a hypothesis [pool_step_at E i p = Some p'] into the moves of
    the thread. *)
Ltac step_cases H :=
  unfold pool_step_at in H;
  match type of H with
  | context [nth_error ?ts ?i] =>
      let Hnth := fresh "Hnth" in
      destruct (nth_error ts i) as [[|[|row rest] results|r rest results|loaded r rest results]|]
        eqn:Hnth
  end;
  [ match type of H with
    | context [queue ?p] =>
        let Hq := fresh "Hq" in destruct (queue p) as [|batch q] eqn:Hq
    end; [discriminate H|]
  |
  | match type of H with
    | context [scrape_item ?e ?a ?b ?c] =>
        let Hitem := fresh "Hitem" in
        destruct (scrape_item e a b c) as [[r results1] w1] eqn:Hitem
    end
  | match type of H with
    | context [lock_count ?p] =>
        let Hlock := fresh "Hlock" in destruct (lock_count p) eqn:Hlock
    end; [discriminate H|]
  | match type of H with
    | match ?pending with Ok _ => _ | Raise _ => _ end = _ =>
        destruct pending as [u|e]
    end
  | discriminate H ];
  injection H as <-.

(** ** The lock and the counter *)

Lemma lock_invariant_step (p p' : pool) :
  lock_invariant p -> pool_step E p p' -> lock_invariant p'.
Proof.
  intros [Hcrit Hloaded] [i H]. unfold lock_invariant.
  step_cases H; simpl.
  all: pose proof (list_sum_set_nth in_critical (threads p) i) as Hsum.
  - specialize (Hsum _ (AtItem batch []) Hnth). simpl in Hsum.
    split; [lia | apply Forall_set_nth; [assumption | exact I]].
  - specialize (Hsum _ Idle Hnth). simpl in Hsum.
    destruct (save_to_csv_frame E results (shared p)) as (Hc & _).
    rewrite Hc. split; [lia | apply Forall_set_nth; [assumption | exact I]].
  - specialize (Hsum _ (AtFinally r rest results1) Hnth). simpl in Hsum.
    destruct (scrape_item_results E row results (shared p)) as (r0 & w0 & Heq & Hc & _).
    rewrite Hitem in Heq. injection Heq as -> _ ->.
    rewrite Hc. split; [lia | apply Forall_set_nth; [assumption | exact I]].
  - specialize (Hsum _ (InCritical (scraped_count (shared p)) r rest results) Hnth).
    simpl in Hsum.
    split; [lia | apply Forall_set_nth; [assumption | reflexivity]].
  - specialize (Hsum _ (AtItem rest results) Hnth). simpl in Hsum.
    assert (Hzero : list_sum (map in_critical (set_nth i (AtItem rest results) (threads p)))
                    = 0%nat) by (destruct (lock_count p); lia).
    split; [exact Hzero | apply no_thread_in_critical; exact Hzero].
  - specialize (Hsum _ Idle Hnth). simpl in Hsum.
    assert (Hzero : list_sum (map in_critical (set_nth i Idle (threads p))) = 0%nat)
      by (destruct (lock_count p); lia).
    split; [exact Hzero | apply no_thread_in_critical; exact Hzero].
Qed.

(** A step leaves the counter as it is or adds exactly one to it. *)
Lemma counter_step (p p' : pool) :
  lock_invariant p -> pool_step E p p' ->
  scraped_count (shared p') = scraped_count (shared p) \/
  scraped_count (shared p') = S (scraped_count (shared p)).
Proof.
  intros [_ Hloaded] [i H].
  step_cases H; simpl.
  - left; reflexivity.
  - left. apply (save_to_csv_frame E results (shared p)).
  - left. destruct (scrape_item_results E row results (shared p)) as (r0 & w0 & Heq & Hc & _).
    rewrite Hitem in Heq. injection Heq as _ _ ->. exact Hc.
  - left; reflexivity.
  - right. pose proof (@Forall_nth_error _ _ _ _ _ Hloaded Hnth) as Hl. simpl in Hl. subst loaded.
    apply (report_progress_frame E).
  - right. pose proof (@Forall_nth_error _ _ _ _ _ Hloaded Hnth) as Hl. simpl in Hl. subst loaded.
    apply (report_progress_frame E).
Qed.

(** ** What no step changes *)

Lemma header_count_app (xs ys : list sink_row) :
  header_count (xs ++ ys) = (header_count xs + header_count ys)%nat.
Proof. unfold header_count. rewrite filter_app, length_app. reflexivity. Qed.

Lemma header_count_results (data : list ResultRow) :
  header_count (map to_sink_row data) = 0%nat.
Proof.
  induction data as [|r data IH]; [reflexivity | exact IH].
Qed.

Lemma header_count_results_firstn (k : nat) (data : list ResultRow) :
  header_count (firstn k (map to_sink_row data)) = 0%nat.
Proof.
  rewrite firstn_map. apply header_count_results.
Qed.

(** [save_to_csv] writes no header. *)
Lemma save_to_csv_headers (data : list ResultRow) (w : world) :
  header_count (result_file (save_to_csv E data w)) = header_count (result_file w).
Proof.
  destruct (save_to_csv_frame E data w) as (_ & _ & _ & Hr). rewrite Hr.
  rewrite header_count_app.
  destruct (result_file_fault E (map to_sink_row data)) as [[[l s] e]|].
  - rewrite header_count_results_firstn. lia.
  - rewrite header_count_results. lia.
Qed.

(** A step changes neither [total_urls], nor the number of threads, nor
    the number of headers in the result file. *)
Lemma frame_step (p p' : pool) :
  pool_step E p p' ->
  total_urls (shared p') = total_urls (shared p) /\
  length (threads p') = length (threads p) /\
  header_count (result_file (shared p')) = header_count (result_file (shared p)).
Proof.
  intros [i H].
  step_cases H; simpl; rewrite set_nth_length.
  - auto.
  - destruct (save_to_csv_frame E results (shared p)) as (_ & Ht & _).
    rewrite save_to_csv_headers. auto.
  - destruct (scrape_item_results E row results (shared p)) as (r0 & w0 & Heq & _ & Ht & Hr).
    rewrite Hitem in Heq. injection Heq as _ _ ->. rewrite Ht, Hr. auto.
  - auto.
  - destruct (report_progress_frame E (set_scraped_count (S loaded) (shared p)))
      as (_ & Ht & Hr & _).
    rewrite Ht, Hr. auto.
  - destruct (report_progress_frame E (set_scraped_count (S loaded) (shared p)))
      as (_ & Ht & Hr & _).
    rewrite Ht, Hr. auto.
Qed.

(** ** Every item is counted once *)

Lemma count_invariant_step (n : nat) (p p' : pool) :
  error_file_reliable E ->
  lock_invariant p -> count_invariant n p -> pool_step E p p' -> count_invariant n p'.
Proof.
  intros Hrel [_ Hloaded] [Hpend Hsum] [i H].
  unfold count_invariant, items_left in *.
  step_cases H; simpl.
  all: pose proof (list_sum_set_nth uncounted (threads p) i) as Hset.
  - specialize (Hset _ (AtItem batch []) Hnth). simpl in Hset.
    simpl in Hsum.
    split; [apply Forall_set_nth; [assumption | exact I] | lia].
  - specialize (Hset _ Idle Hnth). simpl in Hset.
    destruct (save_to_csv_frame E results (shared p)) as (Hc & _).
    rewrite Hc. split; [apply Forall_set_nth; [assumption | exact I] | lia].
  - specialize (Hset _ (AtFinally r rest results1) Hnth). simpl in Hset.
    destruct (scrape_item_reliable row results (shared p) Hrel) as (w0 & Heq & Hc & _).
    rewrite Hitem in Heq. injection Heq as -> _ ->.
    rewrite Hc. split; [apply Forall_set_nth; [assumption | exact I] | lia].
  - specialize (Hset _ (InCritical (scraped_count (shared p)) r rest results) Hnth).
    simpl in Hset.
    pose proof (@Forall_nth_error _ _ _ _ _ Hpend Hnth) as Hr.
    split; [apply Forall_set_nth; [assumption | destruct r; exact Hr] | lia].
  - specialize (Hset _ (AtItem rest results) Hnth). simpl in Hset.
    pose proof (@Forall_nth_error _ _ _ _ _ Hloaded Hnth) as Hl. simpl in Hl. subst loaded.
    destruct (report_progress_frame E (set_scraped_count (S (scraped_count (shared p)))
                                                       (shared p))) as (Hc & _).
    rewrite Hc. simpl.
    split; [apply Forall_set_nth; [assumption | exact I] | lia].
  - pose proof (@Forall_nth_error _ _ _ _ _ Hpend Hnth) as Hr. destruct Hr.
Qed.

(** ** Every step brings the end nearer *)

Lemma measure_step (p p' : pool) :
  pool_step E p p' -> (pool_measure p' < pool_measure p)%nat.
Proof.
  intros [i H]. unfold pool_measure.
  step_cases H; simpl.
  all: pose proof (list_sum_set_nth thread_measure (threads p) i) as Hset.
  - specialize (Hset _ (AtItem batch []) Hnth). simpl in Hset.
    simpl. lia.
  - specialize (Hset _ Idle Hnth). simpl in Hset. lia.
  - specialize (Hset _ (AtFinally r rest results1) Hnth). simpl in Hset. lia.
  - specialize (Hset _ (InCritical (scraped_count (shared p)) r rest results) Hnth).
    simpl in Hset. lia.
  - specialize (Hset _ (AtItem rest results) Hnth). simpl in Hset. lia.
  - specialize (Hset _ Idle Hnth). simpl in Hset. lia.
Qed.

(** ** Runs *)

Lemma pool_steps_trans (p1 p2 p3 : pool) :
  pool_steps E p1 p2 -> pool_steps E p2 p3 -> pool_steps E p1 p3.
Proof.
  induction 1 as [p | p q r Hstep Hsteps IH]; intros H; [exact H|].
  eapply steps_cons; [exact Hstep | apply IH; exact H].
Qed.

Lemma lock_invariant_steps (p p' : pool) :
  lock_invariant p -> pool_steps E p p' -> lock_invariant p'.
Proof.
  intros Hinv Hsteps. induction Hsteps as [p | p q r Hstep Hsteps IH]; [exact Hinv|].
  apply IH. eapply lock_invariant_step; eassumption.
Qed.

Lemma count_invariant_steps (n : nat) (p p' : pool) :
  error_file_reliable E ->
  lock_invariant p -> count_invariant n p -> pool_steps E p p' -> count_invariant n p'.
Proof.
  intros Hrel Hlock Hcount Hsteps.
  induction Hsteps as [p | p q r Hstep Hsteps IH]; [exact Hcount|].
  apply IH.
  - eapply lock_invariant_step; eassumption.
  - eapply count_invariant_step; eassumption.
Qed.

Lemma frame_steps (p p' : pool) :
  pool_steps E p p' ->
  total_urls (shared p') = total_urls (shared p) /\
  length (threads p') = length (threads p) /\
  header_count (result_file (shared p')) = header_count (result_file (shared p)).
Proof.
  induction 1 as [p | p q r Hstep Hsteps IH]; [auto|].
  destruct (frame_step Hstep) as (H1 & H2 & H3).
  destruct IH as (H4 & H5 & H6).
  repeat split; congruence.
Qed.

Lemma follow_steps (sched : list nat) :
  forall p : pool, pool_steps E p (follow E sched p).
Proof.
  induction sched as [|i sched IH]; intros p; simpl.
  - apply steps_refl.
  - destruct (pool_step_at E i p) as [p1|] eqn:Hstep.
    + eapply steps_cons; [exists i; exact Hstep | apply IH].
    + apply IH.
Qed.

Lemma find_step_sound (p p' : pool) (candidates : list nat) :
  find_step E p candidates = Some p' -> pool_step E p p'.
Proof.
  induction candidates as [|i rest IH]; simpl; [discriminate|].
  destruct (pool_step_at E i p) as [p1|] eqn:Hstep.
  - intros H; injection H as <-. exists i. exact Hstep.
  - exact IH.
Qed.

Lemma find_step_none (p : pool) (candidates : list nat) :
  find_step E p candidates = None ->
  forall i : nat, In i candidates -> pool_step_at E i p = None.
Proof.
  induction candidates as [|j rest IH]; simpl; intros H i Hin; [destruct Hin|].
  destruct (pool_step_at E j p) as [p1|] eqn:Hstep; [discriminate|].
  destruct Hin as [<- | Hin]; [exact Hstep | apply IH; assumption].
Qed.

Lemma drain_steps (fuel : nat) :
  forall p : pool, pool_steps E p (drain E fuel p).
Proof.
  induction fuel as [|fuel IH]; intros p; simpl.
  - apply steps_refl.
  - destruct (find_step E p (seq 0 (length (threads p)))) as [p1|] eqn:Hfind.
    + eapply steps_cons; [eapply find_step_sound; exact Hfind | apply IH].
    + apply steps_refl.
Qed.

(** ** No deadlock *)

Lemma exists_critical (ts : list thread) :
  list_sum (map in_critical ts) <> 0%nat ->
  exists (j loaded : nat) (r : result unit) (rest : list WorkItem) (results : list ResultRow),
    nth_error ts j = Some (InCritical loaded r rest results).
Proof.
  induction ts as [|t ts IH]; simpl; intros H; [congruence|].
  destruct t as [| | |loaded r rest results].
  4: exists 0%nat, loaded, r, rest, results; reflexivity.
  all: destruct (IH H) as (j & l1 & r1 & rest1 & results1 & Hj);
    exists (S j), l1, r1, rest1, results1; exact Hj.
Qed.

(** The thread inside the block can always leave it. *)
Lemma critical_can_step (p : pool) (j loaded : nat) (r : result unit)
    (rest : list WorkItem) (results : list ResultRow) :
  nth_error (threads p) j = Some (InCritical loaded r rest results) ->
  pool_step_at E j p <> None.
Proof.
  intros Hj. unfold pool_step_at. rewrite Hj. destruct r; discriminate.
Qed.

(** A thread that cannot move is idle in front of an empty queue, or it
    waits for the lock. *)
Lemma stuck_thread (p : pool) (i : nat) (t : thread) :
  nth_error (threads p) i = Some t -> pool_step_at E i p = None ->
  (t = Idle /\ queue p = []) \/
  (lock_count p = true /\ exists r rest results, t = AtFinally r rest results).
Proof.
  intros Hi Hstuck. unfold pool_step_at in Hstuck. rewrite Hi in Hstuck.
  destruct t as [|[|row todo] results|r rest results|loaded r rest results].
  - destruct (queue p); [left; auto | discriminate].
  - discriminate.
  - destruct (scrape_item E row results (shared p)) as [[r results1] w1]. discriminate.
  - destruct (lock_count p); [right; eauto | discriminate].
  - destruct r; discriminate.
Qed.

(** When no thread can move, the work is done. *)
Lemma stuck_finished (p : pool) :
  lock_invariant p -> threads p <> [] ->
  (forall i : nat, (i < length (threads p))%nat -> pool_step_at E i p = None) ->
  pool_finished p.
Proof.
  intros [Hcrit _] Hne Hstuck.
  assert (Hfree : lock_count p = false).
  { destruct (lock_count p); [|reflexivity]. exfalso.
    destruct (@exists_critical (threads p)) as (j & loaded & r & rest & results & Hj).
    - rewrite Hcrit. discriminate.
    - eapply critical_can_step; [exact Hj|]. apply Hstuck.
      apply nth_error_Some. rewrite Hj. discriminate. }
  assert (Hidle : forall i t, nth_error (threads p) i = Some t -> t = Idle /\ queue p = []).
  { intros i t Hi.
    assert (Hs : pool_step_at E i p = None)
      by (apply Hstuck; apply nth_error_Some; rewrite Hi; discriminate).
    pose proof stuck_thread as Hcases.
    destruct (Hcases _ _ _ Hi Hs) as [H | [Hlock _]]; [exact H | congruence]. }
  split.
  - destruct (threads p) as [|t ts] eqn:Hts; [congruence|].
    apply (Hidle 0%nat t). reflexivity.
  - apply Forall_forall. intros t Hin.
    destruct (In_nth_error _ _ Hin) as [i Hi].
    apply (Hidle i t Hi).
Qed.

(** With fuel for the whole measure, [drain] ends with the work done. *)
Lemma drain_finished (fuel : nat) :
  forall p : pool,
    lock_invariant p -> threads p <> [] -> (pool_measure p <= fuel)%nat ->
    pool_finished (drain E fuel p).
Proof.
  assert (Hnone : forall p, lock_invariant p -> threads p <> [] ->
                    find_step E p (seq 0 (length (threads p))) = None -> pool_finished p).
  { intros p Hlock Hne Hfind. apply stuck_finished; try assumption.
    intros i Hi. eapply find_step_none; [exact Hfind|]. apply in_seq. lia. }
  induction fuel as [|fuel IH]; intros p Hlock Hne Hfuel; simpl.
  - destruct (find_step E p (seq 0 (length (threads p)))) as [p1|] eqn:Hfind.
    + apply find_step_sound in Hfind. apply measure_step in Hfind. lia.
    + apply Hnone; assumption.
  - destruct (find_step E p (seq 0 (length (threads p)))) as [p1|] eqn:Hfind.
    + pose proof Hfind as Hstep. apply find_step_sound in Hstep.
      apply IH.
      * eapply lock_invariant_step; eassumption.
      * destruct (frame_step Hstep) as (_ & Hlen & _).
        intros Hnil. apply Hne. apply length_zero_iff_nil.
        rewrite <- Hlen, Hnil. reflexivity.
      * apply measure_step in Hstep. lia.
    + apply Hnone; assumption.
Qed.

(** ** The pool from start to end *)

Lemma start_pool_invariants (max_workers : Z) (batches : list (list WorkItem)) (w : world) :
  lock_invariant (start_pool max_workers batches w) /\
  count_invariant (scraped_count w + list_sum (map (fun b : list WorkItem => length b) batches))
                  (start_pool max_workers batches w).
Proof.
  unfold lock_invariant, count_invariant, items_left, start_pool; simpl.
  assert (Hidle : forall k, list_sum (map in_critical (repeat Idle k)) = 0%nat /\
                            list_sum (map uncounted (repeat Idle k)) = 0%nat /\
                            Forall nothing_pending (repeat Idle k)).
  { induction k as [|k (H1 & H2 & H3)]; simpl; [auto|].
    split; [exact H1|]. split; [exact H2|]. constructor; [exact I | exact H3]. }
  destruct (Hidle (Z.to_nat max_workers)) as (H1 & H2 & H3).
  rewrite H1, H2. repeat split; auto.
  - apply no_thread_in_critical. exact H1.
Qed.

Lemma run_pool_steps (sched : list nat) (p : pool) :
  pool_steps E p (run_pool E sched p).
Proof.
  unfold run_pool. eapply pool_steps_trans; [apply follow_steps | apply drain_steps].
Qed.

(** Whatever the schedule, [run_pool] ends with every batch done. *)
Lemma run_pool_finished (sched : list nat) (max_workers : Z)
    (batches : list (list WorkItem)) (w : world) :
  1 <= max_workers ->
  pool_finished (run_pool E sched (start_pool max_workers batches w)).
Proof.
  intros Hmw. unfold run_pool.
  set (p0 := start_pool max_workers batches w).
  pose proof (follow_steps sched p0) as Hsteps.
  apply drain_finished.
  - eapply lock_invariant_steps; [apply start_pool_invariants | exact Hsteps].
  - destruct (frame_steps Hsteps) as (_ & Hlen & _).
    intros Hnil. rewrite Hnil in Hlen. unfold p0, start_pool in Hlen. simpl in Hlen.
    rewrite repeat_length in Hlen. lia.
  - apply Nat.le_refl.
Qed.

Lemma finished_nothing_left (p : pool) : pool_finished p -> items_left p = 0%nat.
Proof.
  intros [Hq Hidle]. unfold items_left. rewrite Hq. simpl.
  induction Hidle as [|t ts Ht Hts IH]; [reflexivity|].
  subst t. simpl. exact IH.
Qed.

(** With a reliable error file, a finished pool has counted every item of
    every batch, whatever the number of workers and the schedule. *)
Lemma run_pool_counts (sched : list nat) (max_workers : Z)
    (batches : list (list WorkItem)) (w : world) :
  1 <= max_workers -> error_file_reliable E ->
  scraped_count (shared (run_pool E sched (start_pool max_workers batches w))) =
  (scraped_count w + length (concat batches))%nat.
Proof.
  intros Hmw Hrel.
  destruct (start_pool_invariants max_workers batches w) as [Hlock Hcount].
  pose proof (run_pool_steps sched (start_pool max_workers batches w)) as Hsteps.
  pose proof (count_invariant_steps Hrel Hlock Hcount Hsteps) as [_ Hsum].
  rewrite (finished_nothing_left (run_pool_finished sched batches w Hmw)) in Hsum.
  rewrite length_concat. rewrite Nat.add_0_r in Hsum. exact Hsum.
Qed.

(** ** A thread on its own runs [scrape_urls] *)

Lemma nth_error_set_nth (A : Type) (l : list A) (i : nat) (t x : A) :
  nth_error l i = Some t -> nth_error (set_nth i x l) i = Some x.
Proof.
  revert i; induction l as [|y l IH]; intros [|i] H; simpl in *; try discriminate; auto.
Qed.

Lemma set_nth_twice (A : Type) (l : list A) (i : nat) (x y : A) :
  set_nth i x (set_nth i y l) = set_nth i x l.
Proof.
  revert i; induction l as [|z l IH]; intros [|i]; simpl; try reflexivity.
  rewrite IH. reflexivity.
Qed.

(** The steps of one thread, when no other thread moves in between, take
    the pool where the loop of [scrape_urls] and then [save_to_csv] take
    the process state; the future receives what [scrape_urls] returns or
    raises. *)
Lemma thread_alone (i : nat) (data : list WorkItem) :
  forall (results : list ResultRow) (q : list (list WorkItem)) (ts : list thread)
         (futs : list (result string)) (w : world),
    nth_error ts i = Some (AtItem data results) ->
    pool_steps E (Pool q ts futs false w)
      (match scrape_loop E data results w with
       | (Ok rs, w1) =>
           Pool q (set_nth i Idle ts) (futs ++ [Ok "Scraping complete"]) false
                (save_to_csv E rs w1)
       | (Raise e, w1) => Pool q (set_nth i Idle ts) (futs ++ [Raise e]) false w1
       end).
Proof.
  induction data as [|row rest IH]; intros results q ts futs w Hnth.
  - simpl. eapply steps_cons; [|apply steps_refl].
    exists i. unfold pool_step_at. simpl. rewrite Hnth. reflexivity.
  - simpl scrape_loop.
    destruct (scrape_item E row results w) as [[r results1] w1] eqn:Hitem.
    eapply steps_cons.
    { exists i. unfold pool_step_at. simpl. rewrite Hnth, Hitem. reflexivity. }
    eapply steps_cons.
    { exists i. unfold pool_step_at. simpl.
      rewrite (@nth_error_set_nth _ ts i _ (AtFinally r rest results1) Hnth).
      reflexivity. }
    rewrite set_nth_twice.
    destruct r as [u|e].
    + eapply steps_cons.
      { exists i. unfold pool_step_at. simpl.
        rewrite (@nth_error_set_nth _ ts i _
                   (InCritical (scraped_count w1) (Ok u) rest results1) Hnth).
        reflexivity. }
      rewrite set_nth_twice. fold (update_progress E w1).
      pose proof (IH results1 q (set_nth i (AtItem rest results1) ts) futs
                     (update_progress E w1)
                     (@nth_error_set_nth _ ts i _ (AtItem rest results1) Hnth)) as Hrest.
      rewrite set_nth_twice in Hrest.
      destruct (scrape_loop E rest results1 (update_progress E w1)) as [[rs|e] w2];
        exact Hrest.
    + eapply steps_cons.
      { exists i. unfold pool_step_at. simpl.
        rewrite (@nth_error_set_nth _ ts i _
                   (InCritical (scraped_count w1) (Raise e) rest results1) Hnth).
        reflexivity. }
      rewrite set_nth_twice. fold (update_progress E w1).
      apply steps_refl.
Qed.

(** In particular a pool with one idle thread and one batch runs
    [scrape_urls] on the batch. *)
Lemma one_thread_one_batch (data : list WorkItem) (w : world) :
  pool_steps E (Pool [data] [Idle] [] false w)
    (Pool [] [Idle] [fst (scrape_urls E data w)] false (snd (scrape_urls E data w))).
Proof.
  eapply steps_cons.
  { exists 0%nat. reflexivity. }
  pose proof (@thread_alone 0 data [] [] [AtItem data []] [] w eq_refl) as H.
  unfold scrape_urls.
  destruct (scrape_loop E data [] w) as [[rs|e] w1]; exact H.
Qed.

(** ** Every run is the run of a schedule *)

Lemma steps_follow (p p' : pool) :
  pool_steps E p p' -> exists sched : list nat, follow E sched p = p'.
Proof.
  induction 1 as [p | p q r [i Hstep] Hsteps [sched IH]].
  - exists []. reflexivity.
  - exists (i :: sched). simpl. rewrite Hstep. exact IH.
Qed.

Lemma finished_no_step (p : pool) (i : nat) :
  pool_finished p -> pool_step_at E i p = None.
Proof.
  intros [Hq Hidle]. unfold pool_step_at.
  destruct (nth_error (threads p) i) as [t|] eqn:Hi; [|reflexivity].
  rewrite Forall_forall in Hidle.
  rewrite (Hidle t (nth_error_In _ _ Hi)), Hq. reflexivity.
Qed.

Lemma drain_finished_id (fuel : nat) (p : pool) :
  pool_finished p -> drain E fuel p = p.
Proof.
  intros Hfin. destruct fuel as [|fuel]; simpl; [reflexivity|].
  destruct (find_step E p (seq 0 (length (threads p)))) as [p1|] eqn:Hfind;
    [|reflexivity].
  apply find_step_sound in Hfind. destruct Hfind as [i Hstep].
  rewrite (finished_no_step i Hfin) in Hstep. discriminate.
Qed.

(** Whatever way the threads interleave until the work is done, some
    schedule makes [run_pool] end in the same state. *)
Lemma run_pool_complete (p p' : pool) :
  pool_steps E p p' -> pool_finished p' ->
  exists sched : list nat, run_pool E sched p = p'.
Proof.
  intros Hsteps Hfin. destruct (steps_follow Hsteps) as [sched Hsched].
  exists sched. unfold run_pool. rewrite Hsched. apply drain_finished_id. exact Hfin.
Qed.

(** ** Files and log only grow *)

Lemma grows_refl (w : world) : grows w w.
Proof.
  repeat split; [apply Nat.le_refl | exists [] | exists [] | exists []];
    rewrite app_nil_r; reflexivity.
Qed.

Lemma grows_trans (w1 w2 w3 : world) : grows w1 w2 -> grows w2 w3 -> grows w1 w3.
Proof.
  intros (Hc1 & [r1 Hr1] & [e1 He1] & [l1 Hl1]) (Hc2 & [r2 Hr2] & [e2 He2] & [l2 Hl2]).
  repeat split.
  - lia.
  - exists (r1 ++ r2). rewrite Hr2, Hr1, app_assoc. reflexivity.
  - exists (e1 ++ e2). rewrite He2, He1, app_assoc. reflexivity.
  - exists (l1 ++ l2). rewrite Hl2, Hl1, app_assoc. reflexivity.
Qed.

Lemma save_to_csv_grows (data : list ResultRow) (w : world) :
  grows w (save_to_csv E data w).
Proof.
  destruct (save_to_csv_full E data w) as (Hr & Hl & _ & Hc & _ & He).
  repeat split.
  - rewrite Hc. apply Nat.le_refl.
  - eexists. exact Hr.
  - exists []. rewrite He, app_nil_r. reflexivity.
  - eexists. exact Hl.
Qed.

Lemma scrape_item_grows (row : WorkItem) (results : list ResultRow) (w : world) :
  grows w (snd (scrape_item E row results w)).
Proof.
  destruct (scrape_item_outcome E row results w) as (w' & Heq & Hc & _ & Hr & He).
  destruct (scrape_item_log E row results w) as (lines & Hl & _).
  rewrite Heq in *. simpl snd in *.
  repeat split.
  - rewrite Hc. apply Nat.le_refl.
  - exists []. rewrite Hr, app_nil_r. reflexivity.
  - eexists. exact He.
  - eexists. exact Hl.
Qed.

Lemma report_progress_grows (c : nat) (w : world) :
  (scraped_count w <= c)%nat ->
  grows w (report_progress E (set_scraped_count c w)).
Proof.
  intros Hc.
  destruct (report_progress_frame E (set_scraped_count c w)) as (H1 & _ & H3 & H4).
  repeat split.
  - rewrite H1. exact Hc.
  - exists []. rewrite H3, app_nil_r. reflexivity.
  - exists []. rewrite H4, app_nil_r. reflexivity.
  - rewrite report_progress_log. eexists. reflexivity.
Qed.

Lemma grows_step (p p' : pool) :
  lock_invariant p -> pool_step E p p' -> grows (shared p) (shared p').
Proof.
  intros [_ Hloaded] [i H].
  step_cases H; simpl.
  - apply grows_refl.
  - apply save_to_csv_grows.
  - pose proof (scrape_item_grows row results (shared p)) as Hg.
    rewrite Hitem in Hg. exact Hg.
  - apply grows_refl.
  - pose proof (@Forall_nth_error _ _ _ _ _ Hloaded Hnth) as Hl. simpl in Hl. subst loaded.
    apply report_progress_grows. lia.
  - pose proof (@Forall_nth_error _ _ _ _ _ Hloaded Hnth) as Hl. simpl in Hl. subst loaded.
    apply report_progress_grows. lia.
Qed.

Lemma grows_steps (p p' : pool) :
  lock_invariant p -> pool_steps E p p' -> grows (shared p) (shared p').
Proof.
  intros Hlock Hsteps. induction Hsteps as [p | p q r Hstep Hsteps IH].
  - apply grows_refl.
  - eapply grows_trans; [eapply grows_step; eassumption|].
    apply IH. eapply lock_invariant_step; eassumption.
Qed.

(** ** The progress lines in the log *)

#[local] Arguments Nat.div : simpl never.

Lemma div10_succ (c : nat) :
  (S c / 10 = c / 10 + (if S c mod 10 =? 0 then 1 else 0))%nat.
Proof.
  pose proof (Nat.div_mod_eq c 10) as H1.
  pose proof (Nat.div_mod_eq (S c) 10) as H2.
  pose proof (Nat.mod_upper_bound c 10 ltac:(lia)) as H3.
  pose proof (Nat.mod_upper_bound (S c) 10 ltac:(lia)) as H4.
  destruct (Nat.eqb_spec (S c mod 10) 0); lia.
Qed.

Lemma reached_succ (total c : nat) :
  (reached total (S c) = reached total c + (if S c =? total then 1 else 0))%nat.
Proof.
  unfold reached.
  destruct (Nat.leb_spec total (S c)); destruct (Nat.leb_spec total c);
    destruct (Nat.eqb_spec (S c) total); lia.
Qed.

(** What a step adds to the estimates and to the lines "All URLs
    scraped" in the log, from what it adds to the counter. *)
Lemma lines_step (p p' : pool) :
  lock_invariant p -> pool_step E p p' ->
  (progress_lines (log (shared p')) + scraped_count (shared p) / 10 =
   progress_lines (log (shared p)) + scraped_count (shared p') / 10)%nat /\
  (all_scraped_lines (log (shared p')) +
   reached (total_urls (shared p)) (scraped_count (shared p)) =
   all_scraped_lines (log (shared p)) +
   reached (total_urls (shared p)) (scraped_count (shared p')))%nat.
Proof.
  intros [_ Hloaded] [i H].
  step_cases H; simpl.
  - split; reflexivity.
  - destruct (save_to_csv_full E results (shared p)) as (_ & Hl & _ & Hc & _).
    cbv zeta in Hl, Hc. rewrite Hl, Hc.
    rewrite !progress_lines_app, !all_scraped_lines_app.
    destruct (saved_lines_none (firstn (lines_logged E results) results)) as [S1 S2].
    rewrite S1, S2.
    destruct (result_file_fault E (map to_sink_row results)) as [[[l s] e]|];
      unfold progress_lines, all_scraped_lines; simpl; split; lia.
  - destruct (scrape_item_log E row results (shared p)) as (lines & Hl & L1 & L2).
    destruct (scrape_item_outcome E row results (shared p)) as (w' & Heq & Hc & _).
    rewrite Hitem in Hl. rewrite Hitem in Heq. injection Heq as _ _ <-.
    simpl snd in Hl. rewrite Hl, Hc.
    rewrite progress_lines_app, all_scraped_lines_app, L1, L2. split; lia.
  - split; reflexivity.
  - pose proof (@Forall_nth_error _ _ _ _ _ Hloaded Hnth) as Hl. simpl in Hl. subst loaded.
    destruct (report_progress_frame E
                (set_scraped_count (S (scraped_count (shared p))) (shared p)))
      as (Hc & _).
    rewrite Hc, report_progress_log. cbn [scraped_count set_scraped_count total_urls log].
    rewrite !progress_lines_app, !all_scraped_lines_app.
    rewrite div10_succ, reached_succ.
    destruct (S (scraped_count (shared p)) mod 10 =? 0)%nat;
      destruct (S (scraped_count (shared p)) =? total_urls (shared p))%nat;
      unfold progress_lines, all_scraped_lines; simpl; split; lia.
  - pose proof (@Forall_nth_error _ _ _ _ _ Hloaded Hnth) as Hl. simpl in Hl. subst loaded.
    destruct (report_progress_frame E
                (set_scraped_count (S (scraped_count (shared p))) (shared p)))
      as (Hc & _).
    rewrite Hc, report_progress_log. cbn [scraped_count set_scraped_count total_urls log].
    rewrite !progress_lines_app, !all_scraped_lines_app.
    rewrite div10_succ, reached_succ.
    destruct (S (scraped_count (shared p)) mod 10 =? 0)%nat;
      destruct (S (scraped_count (shared p)) =? total_urls (shared p))%nat;
      unfold progress_lines, all_scraped_lines; simpl; split; lia.
Qed.

Lemma lines_steps (p p' : pool) :
  lock_invariant p -> pool_steps E p p' ->
  (progress_lines (log (shared p')) + scraped_count (shared p) / 10 =
   progress_lines (log (shared p)) + scraped_count (shared p') / 10)%nat /\
  (all_scraped_lines (log (shared p')) +
   reached (total_urls (shared p)) (scraped_count (shared p)) =
   all_scraped_lines (log (shared p)) +
   reached (total_urls (shared p)) (scraped_count (shared p')))%nat.
Proof.
  intros Hlock Hsteps. induction Hsteps as [p | p q r Hstep Hsteps IH].
  - split; reflexivity.
  - destruct (lines_step Hlock Hstep) as [A1 A2].
    destruct (IH (lock_invariant_step Hlock Hstep)) as [B1 B2].
    destruct (frame_step Hstep) as (Ht & _).
    rewrite Ht in B2. split; lia.
Qed.

(** ** One future per batch *)

Lemma futures_step (p p' : pool) :
  pool_step E p p' ->
  (length (futures p') + length (queue p') + list_sum (map busy (threads p')) =
   length (futures p) + length (queue p) + list_sum (map busy (threads p)))%nat.
Proof.
  intros [i H].
  step_cases H; simpl.
  all: pose proof (list_sum_set_nth busy (threads p) i) as Hset.
  - specialize (Hset _ (AtItem batch []) Hnth). simpl in Hset. lia.
  - specialize (Hset _ Idle Hnth). simpl in Hset. rewrite length_app. simpl. lia.
  - specialize (Hset _ (AtFinally r rest results1) Hnth). simpl in Hset. lia.
  - specialize (Hset _ (InCritical (scraped_count (shared p)) r rest results) Hnth).
    simpl in Hset. lia.
  - specialize (Hset _ (AtItem rest results) Hnth). simpl in Hset. lia.
  - specialize (Hset _ Idle Hnth). simpl in Hset. rewrite length_app. simpl. lia.
Qed.

(** With a reliable error file every future holds the message of
    [scrape_urls]. *)
Lemma futures_ok_step (n : nat) (p p' : pool) :
  count_invariant n p -> pool_step E p p' ->
  Forall (fun f => f = Ok "Scraping complete") (futures p) ->
  Forall (fun f => f = Ok "Scraping complete") (futures p').
Proof.
  intros [Hpend _] [i H] Hok.
  step_cases H; simpl; try exact Hok.
  - apply Forall_app. split; [exact Hok | constructor; [reflexivity | constructor]].
  - pose proof (@Forall_nth_error _ _ _ _ _ Hpend Hnth) as Hr. destruct Hr.
Qed.

(** ** The rows of the two files, whatever the schedule *)

Section Counting.

Variable B : Type.
Variable dec : forall x y : B, {x = y} + {x <> y}.
Variable f : thread -> list B.

Lemma count_occ_set_nth (l : list thread) (i : nat) (t y : thread) (x : B) :
  nth_error l i = Some t ->
  (count_occ dec (flat_map f (set_nth i y l)) x + count_occ dec (f t) x =
   count_occ dec (flat_map f l) x + count_occ dec (f y) x)%nat.
Proof.
  revert i; induction l as [|a l IH]; intros [|i] H; simpl in *; try discriminate.
  - injection H as ->. rewrite !count_occ_app. lia.
  - specialize (IH i H). rewrite !count_occ_app. lia.
Qed.

Lemma count_occ_idle (l : list thread) (x : B) :
  f Idle = [] -> Forall (fun t => t = Idle) l -> count_occ dec (flat_map f l) x = 0%nat.
Proof.
  intros Hidle Hl. induction Hl as [|t l Ht Hl IH]; [reflexivity|].
  subst t. simpl. rewrite Hidle. exact IH.
Qed.

End Counting.

#[local] Arguments count_occ : simpl never.

Lemma count_occ_cons_app (B : Type) (dec : forall x y : B, {x = y} + {x <> y})
    (a : B) (l : list B) (x : B) :
  count_occ dec (a :: l) x = (count_occ dec [a] x + count_occ dec l x)%nat.
Proof.
  change (a :: l) with ([a] ++ l). apply count_occ_app.
Qed.

(** A step moves rows from the queue to a thread and from a thread to the
    result file; none appears, none is lost. *)
Lemma results_step (n : nat) (x : sink_row) (p p' : pool) :
  result_file_reliable E -> count_invariant n p -> pool_step E p p' ->
  count_occ sink_row_eq_dec
    (result_file (shared p') ++ flat_map (pending_results E) (threads p') ++
     flat_map (batch_rows E) (queue p')) x =
  count_occ sink_row_eq_dec
    (result_file (shared p) ++ flat_map (pending_results E) (threads p) ++
     flat_map (batch_rows E) (queue p)) x.
Proof.
  intros Hres [Hpend _] [i H].
  step_cases H; simpl.
  all: pose proof (@count_occ_set_nth _ sink_row_eq_dec (pending_results E)
                     (threads p) i) as Hset.
  - specialize (Hset _ (AtItem batch []) x Hnth). simpl in Hset.
    rewrite ?count_occ_app, ?count_occ_nil in Hset.
    rewrite ?count_occ_app, ?count_occ_nil. lia.
  - specialize (Hset _ Idle x Hnth). simpl in Hset.
    rewrite app_nil_r in Hset.
    destruct (save_to_csv_frame E results (shared p)) as (_ & _ & _ & Hr).
    rewrite Hres in Hr. rewrite Hr.
    rewrite ?count_occ_app, ?count_occ_nil in Hset.
    rewrite ?count_occ_app, ?count_occ_nil. lia.
  - specialize (Hset _ (AtFinally r rest results1) x Hnth).
    destruct (scrape_item_outcome E row results (shared p)) as (w' & Heq & _ & _ & Hr & _).
    rewrite Hitem in Heq. injection Heq as _ -> ->.
    rewrite Hr. simpl in Hset.
    rewrite map_app, !count_occ_app, count_occ_cons_app in Hset.
    change (map to_sink_row [item_result E row])
      with [DataRow (fst row) (item_description E row)] in Hset.
    rewrite ?count_occ_app, ?count_occ_nil in Hset.
    rewrite ?count_occ_app, ?count_occ_nil. lia.
  - specialize (Hset _ (InCritical (scraped_count (shared p)) r rest results) x Hnth).
    simpl in Hset. rewrite ?count_occ_app, ?count_occ_nil in Hset.
    rewrite ?count_occ_app, ?count_occ_nil. lia.
  - specialize (Hset _ (AtItem rest results) x Hnth). simpl in Hset.
    destruct (report_progress_frame E (set_scraped_count (S loaded) (shared p)))
      as (_ & _ & Hr & _).
    rewrite Hr. simpl. rewrite ?count_occ_app, ?count_occ_nil in Hset.
    rewrite ?count_occ_app, ?count_occ_nil. lia.
  - pose proof (@Forall_nth_error _ _ _ _ _ Hpend Hnth) as Hr. destruct Hr.
Qed.

(** The same for the rows of the error file. *)
Lemma errors_step (n : nat) (x : error_row) (p p' : pool) :
  error_file_reliable E -> count_invariant n p -> pool_step E p p' ->
  count_occ error_row_eq_dec
    (error_file (shared p') ++ flat_map (pending_errors E) (threads p') ++
     flat_map (flat_map (item_errors E)) (queue p')) x =
  count_occ error_row_eq_dec
    (error_file (shared p) ++ flat_map (pending_errors E) (threads p) ++
     flat_map (flat_map (item_errors E)) (queue p)) x.
Proof.
  intros Herr [Hpend _] [i H].
  step_cases H; simpl.
  all: pose proof (@count_occ_set_nth _ error_row_eq_dec (pending_errors E)
                     (threads p) i) as Hset.
  - specialize (Hset _ (AtItem batch []) x Hnth). simpl in Hset.
    rewrite ?count_occ_app, ?count_occ_nil in Hset.
    rewrite ?count_occ_app, ?count_occ_nil. lia.
  - specialize (Hset _ Idle x Hnth). simpl in Hset.
    destruct (save_to_csv_frame E results (shared p)) as (_ & _ & He & _).
    rewrite He.
    rewrite ?count_occ_app, ?count_occ_nil in Hset.
    rewrite ?count_occ_app, ?count_occ_nil. lia.
  - specialize (Hset _ (AtFinally r rest results1) x Hnth).
    destruct (@scrape_item_reliable E row results (shared p) Herr)
      as (w' & Heq & _ & _ & _ & He).
    rewrite Hitem in Heq. injection Heq as _ _ ->.
    rewrite He. simpl in Hset.
    rewrite ?count_occ_app, ?count_occ_nil in Hset.
    rewrite ?count_occ_app, ?count_occ_nil. lia.
  - specialize (Hset _ (InCritical (scraped_count (shared p)) r rest results) x Hnth).
    simpl in Hset. rewrite ?count_occ_app, ?count_occ_nil in Hset.
    rewrite ?count_occ_app, ?count_occ_nil. lia.
  - specialize (Hset _ (AtItem rest results) x Hnth). simpl in Hset.
    destruct (report_progress_frame E (set_scraped_count (S loaded) (shared p)))
      as (_ & _ & _ & He).
    rewrite He. simpl. rewrite ?count_occ_app, ?count_occ_nil in Hset.
    rewrite ?count_occ_app, ?count_occ_nil. lia.
  - pose proof (@Forall_nth_error _ _ _ _ _ Hpend Hnth) as Hr. destruct Hr.
Qed.

Lemma rows_steps (n : nat) (p p' : pool) :
  error_file_reliable E -> result_file_reliable E ->
  lock_invariant p -> count_invariant n p -> pool_steps E p p' ->
  (forall x : sink_row,
     count_occ sink_row_eq_dec
       (result_file (shared p') ++ flat_map (pending_results E) (threads p') ++
        flat_map (batch_rows E) (queue p')) x =
     count_occ sink_row_eq_dec
       (result_file (shared p) ++ flat_map (pending_results E) (threads p) ++
        flat_map (batch_rows E) (queue p)) x) /\
  (forall x : error_row,
     count_occ error_row_eq_dec
       (error_file (shared p') ++ flat_map (pending_errors E) (threads p') ++
        flat_map (flat_map (item_errors E)) (queue p')) x =
     count_occ error_row_eq_dec
       (error_file (shared p) ++ flat_map (pending_errors E) (threads p) ++
        flat_map (flat_map (item_errors E)) (queue p)) x).
Proof.
  intros Herr Hres Hlock Hcount Hsteps.
  induction Hsteps as [p | p q r Hstep Hsteps IH]; [split; reflexivity|].
  destruct (IH (lock_invariant_step Hlock Hstep)
               (count_invariant_step Herr Hlock Hcount Hstep)) as [IH1 IH2].
  split; intros x.
  - rewrite IH1. eapply results_step; eassumption.
  - rewrite IH2. eapply errors_step; eassumption.
Qed.

Lemma batch_rows_concat (batches : list (list WorkItem)) :
  batch_rows E (concat batches) = flat_map (batch_rows E) batches.
Proof.
  induction batches as [|b bs IH]; [reflexivity|].
  simpl. rewrite <- IH. apply map_app.
Qed.

Lemma item_errors_concat (batches : list (list WorkItem)) :
  flat_map (item_errors E) (concat batches) =
  flat_map (flat_map (item_errors E)) batches.
Proof.
  induction batches as [|b bs IH]; [reflexivity|].
  simpl. rewrite flat_map_app, IH. reflexivity.
Qed.

(** When the pool is done, the two files hold what they held, the rows of
    the items of all the batches, and nothing else. *)
Lemma run_pool_rows (sched : list nat) (max_workers : Z)
    (batches : list (list WorkItem)) (w : world) :
  1 <= max_workers -> error_file_reliable E -> result_file_reliable E ->
  let w' := shared (run_pool E sched (start_pool max_workers batches w)) in
  Permutation (result_file w') (result_file w ++ batch_rows E (concat batches)) /\
  Permutation (error_file w') (error_file w ++ flat_map (item_errors E) (concat batches)).
Proof.
  intros Hmw Herr Hres w'.
  destruct (start_pool_invariants max_workers batches w) as [Hlock Hcount].
  pose proof (run_pool_steps sched (start_pool max_workers batches w)) as Hsteps.
  destruct (rows_steps Herr Hres Hlock Hcount Hsteps) as [Hrows Herrs].
  destruct (run_pool_finished sched batches w Hmw) as [Hq Hidle].
  assert (Hstart : forall (B : Type) (g : thread -> list B),
            g Idle = [] -> flat_map g (threads (start_pool max_workers batches w)) = []).
  { intros B g Hg. unfold start_pool; simpl.
    induction (Z.to_nat max_workers) as [|k IH]; simpl; [reflexivity|].
    rewrite Hg. exact IH. }
  split.
  - apply (Permutation_count_occ sink_row_eq_dec). intros x.
    specialize (Hrows x). fold w' in Hrows. rewrite Hq in Hrows.
    rewrite (Hstart _ (pending_results E) eq_refl) in Hrows.
    rewrite !count_occ_app in Hrows.
    rewrite (count_occ_idle sink_row_eq_dec (pending_results E) x eq_refl Hidle) in Hrows.
    simpl in Hrows. rewrite ?count_occ_nil in Hrows.
    rewrite count_occ_app, batch_rows_concat. lia.
  - apply (Permutation_count_occ error_row_eq_dec). intros x.
    specialize (Herrs x). fold w' in Herrs. rewrite Hq in Herrs.
    rewrite (Hstart _ (pending_errors E) eq_refl) in Herrs.
    rewrite !count_occ_app in Herrs.
    rewrite (count_occ_idle error_row_eq_dec (pending_errors E) x eq_refl Hidle) in Herrs.
    simpl in Herrs. rewrite ?count_occ_nil in Herrs.
    rewrite count_occ_app, item_errors_concat. lia.
Qed.

(** ** What the calls of [scrape_urls] returned *)

Lemma futures_steps (p p' : pool) :
  pool_steps E p p' ->
  (length (futures p') + length (queue p') + list_sum (map busy (threads p')) =
   length (futures p) + length (queue p) + list_sum (map busy (threads p)))%nat.
Proof.
  induction 1 as [p | p q r Hstep Hsteps IH]; [reflexivity|].
  rewrite IH. apply futures_step. exact Hstep.
Qed.

Lemma futures_ok_steps (n : nat) (p p' : pool) :
  error_file_reliable E -> lock_invariant p -> count_invariant n p ->
  pool_steps E p p' ->
  Forall (fun f => f = Ok "Scraping complete") (futures p) ->
  Forall (fun f => f = Ok "Scraping complete") (futures p').
Proof.
  intros Herr Hlock Hcount Hsteps.
  induction Hsteps as [p | p q r Hstep Hsteps IH]; [auto|].
  intros Hok. apply IH.
  - eapply lock_invariant_step; eassumption.
  - eapply count_invariant_step; eassumption.
  - eapply futures_ok_step; eassumption.
Qed.

Lemma idle_not_busy (ts : list thread) :
  Forall (fun t => t = Idle) ts ->
  list_sum (map busy ts) = 0%nat /\ list_sum (map in_critical ts) = 0%nat.
Proof.
  induction 1 as [|t ts Ht Hts [IH1 IH2]]; [split; reflexivity|].
  subst t. simpl. auto.
Qed.

Lemma Forall_eq_repeat (A : Type) (x : A) (l : list A) :
  Forall (fun y => y = x) l -> l = repeat x (length l).
Proof.
  induction 1 as [|y l Hy Hl IH]; [reflexivity|].
  subst y. simpl. rewrite <- IH. reflexivity.
Qed.

(** X12.  Whatever the schedule and the environment, a pool of at least one
    worker comes to an end: the queue is empty, every thread is back to
    waiting, [lock_count] is free, and every batch has been given to
    [scrape_urls] once, one future per batch.  When no append to the error
    file raises, every call returned "Scraping complete". *)
Theorem pool_runs_every_batch (sched : list nat) (max_workers : Z)
    (batches : list (list WorkItem)) (w : world) :
  1 <= max_workers ->
  let p' := run_pool E sched (start_pool max_workers batches w) in
  queue p' = [] /\
  threads p' = repeat Idle (Z.to_nat max_workers) /\
  lock_count p' = false /\
  length (futures p') = length batches /\
  (error_file_reliable E ->
   futures p' = repeat (Ok "Scraping complete") (length batches)).
Proof.
  intros Hmw p'.
  destruct (start_pool_invariants max_workers batches w) as [Hlock Hcount].
  pose proof (run_pool_steps sched (start_pool max_workers batches w)) as Hsteps.
  fold p' in Hsteps.
  destruct (run_pool_finished sched batches w Hmw) as [Hq Hidle].
  fold p' in Hq, Hidle.
  destruct (idle_not_busy Hidle) as [Hbusy Hcrit].
  destruct (frame_steps Hsteps) as (_ & Hlen & _).
  pose proof (futures_steps Hsteps) as Hfut.
  rewrite Hq, Hbusy in Hfut.
  assert (Hstart : list_sum (map busy (threads (start_pool max_workers batches w))) = 0%nat).
  { apply idle_not_busy. unfold start_pool; simpl.
    induction (Z.to_nat max_workers) as [|k IH]; simpl; constructor; auto. }
  rewrite Hstart in Hfut. unfold start_pool in Hfut, Hlen. simpl in Hfut, Hlen.
  rewrite repeat_length in Hlen.
  assert (Hfutures : length (futures p') = length batches) by lia.
  split; [exact Hq|]. split.
  { rewrite (Forall_eq_repeat Hidle), Hlen. reflexivity. }
  split.
  { destruct (lock_invariant_steps Hlock Hsteps) as [Hheld _].
    rewrite Hcrit in Hheld. destruct (lock_count p'); [discriminate | reflexivity]. }
  split; [exact Hfutures|].
  intros Herr. rewrite <- Hfutures. apply Forall_eq_repeat.
  eapply futures_ok_steps; try eassumption.
  unfold start_pool; simpl. constructor.
Qed.

(** ** One worker *)

Lemma single_thread_step (p p' : pool) (i : nat) :
  length (threads p) = 1%nat -> pool_step_at E i p = Some p' -> i = 0%nat.
Proof.
  intros Hlen H.
  assert (Hi : (i < length (threads p))%nat).
  { step_cases H; apply nth_error_Some; rewrite Hnth; discriminate. }
  lia.
Qed.

(** With one thread the pool has one run: a state it can reach goes on to
    the end of any finished run. *)
Lemma single_thread_run (p q : pool) :
  pool_steps E p q -> length (threads p) = 1%nat -> pool_finished q ->
  forall p' : pool, pool_steps E p p' -> pool_steps E p' q.
Proof.
  induction 1 as [p | p r q Hstep Hsteps IH]; intros Hlen Hfin p' H'.
  - inversion H' as [|? r' ? [i Hi] Hrest]; subst; [apply steps_refl|].
    rewrite (finished_no_step i Hfin) in Hi. discriminate.
  - destruct (frame_step Hstep) as (_ & Hlen' & _).
    inversion H' as [|? r' ? Hstep' Hrest]; subst.
    + eapply steps_cons; eassumption.
    + assert (r' = r) as ->.
      { destruct Hstep as [i Hi]. destruct Hstep' as [j Hj].
        rewrite (@single_thread_step _ _ _ Hlen Hi) in Hi.
        rewrite (@single_thread_step _ _ _ Hlen Hj) in Hj.
        rewrite Hi in Hj. injection Hj as ->. reflexivity. }
      apply IH; [lia | exact Hfin | exact Hrest].
Qed.

Lemma one_thread_batches (batches : list (list WorkItem)) :
  forall (futs : list (result string)) (w : world),
    pool_steps E (Pool batches [Idle] futs false w)
      (Pool [] [Idle] (futs ++ fst (run_batches E batches w)) false
            (snd (run_batches E batches w))).
Proof.
  induction batches as [|batch rest IH]; intros futs w.
  - simpl. rewrite app_nil_r. apply steps_refl.
  - eapply steps_cons.
    { exists 0%nat. reflexivity. }
    pose proof (@thread_alone 0 batch [] rest [AtItem batch []] futs w eq_refl) as H.
    simpl run_batches. unfold scrape_urls.
    destruct (scrape_loop E batch [] w) as [[rs|e] w1].
    + eapply pool_steps_trans; [exact H|]. simpl set_nth.
      specialize (IH (futs ++ [Ok "Scraping complete"]) (save_to_csv E rs w1)).
      destruct (run_batches E rest (save_to_csv E rs w1)) as [rs' w2].
      simpl in *. rewrite <- app_assoc in IH. exact IH.
    + eapply pool_steps_trans; [exact H|]. simpl set_nth.
      specialize (IH (futs ++ [Raise e]) w1).
      destruct (run_batches E rest w1) as [rs' w2].
      simpl in *. rewrite <- app_assoc in IH. exact IH.
Qed.

Lemma run_batches_files (batches : list (list WorkItem)) :
  error_file_reliable E -> result_file_reliable E ->
  forall w : world,
    result_file (snd (run_batches E batches w)) =
      result_file w ++ batch_rows E (concat batches) /\
    error_file (snd (run_batches E batches w)) =
      error_file w ++ flat_map (item_errors E) (concat batches).
Proof.
  intros Herr Hres. induction batches as [|batch rest IH]; intros w.
  - simpl. rewrite !app_nil_r. auto.
  - simpl run_batches.
    destruct (scrape_urls_files batch w Herr Hres) as (w1 & Heq & Hr & He).
    rewrite Heq. specialize (IH w1).
    destruct (run_batches E rest w1) as [rs w2]. simpl in *.
    destruct IH as [IH1 IH2]. rewrite IH1, IH2, Hr, He.
    unfold batch_rows. rewrite map_app, flat_map_app, <- !app_assoc. auto.
Qed.

(** The pool of one worker ends where the plain loop over the batches
    ends, under every schedule. *)
Lemma one_worker_run (sched : list nat) (batches : list (list WorkItem)) (w : world) :
  run_pool E sched (start_pool 1 batches w) =
  Pool [] [Idle] (fst (run_batches E batches w)) false (snd (run_batches E batches w)).
Proof.
  pose proof (one_thread_batches batches [] w) as Hseq. simpl app in Hseq.
  pose proof (run_pool_steps sched (start_pool 1 batches w)) as Hrun.
  assert (Hfin : pool_finished (run_pool E sched (start_pool 1 batches w))).
  { apply run_pool_finished. lia. }
  assert (Hend : pool_finished (Pool [] [Idle] (fst (run_batches E batches w)) false
                                     (snd (run_batches E batches w)))).
  { split; [reflexivity | repeat constructor]. }
  pose proof (@single_thread_run _ _ Hseq eq_refl Hend _ Hrun) as Hrest.
  inversion Hrest as [|? r ? [i Hi] ?]; subst; [reflexivity|].
  rewrite (finished_no_step i Hfin) in Hi. discriminate.
Qed.

(** X15.  With one worker the schedule does not matter: the pool ends in
    the state the plain loop [for batch in batches: scrape_urls(batch)]
    ends in, with what each call returned or raised in the order of the
    batches.  When no append fails, the result file then holds the rows of
    the items in the order of the input, and the error file the rows of
    the failed items in that order. *)
Theorem one_worker_sequential (sched : list nat) (batches : list (list WorkItem))
    (w : world) :
  let p' := run_pool E sched (start_pool 1 batches w) in
  p' = Pool [] [Idle] (fst (run_batches E batches w)) false
            (snd (run_batches E batches w)) /\
  (error_file_reliable E -> result_file_reliable E ->
   result_file (shared p') = result_file w ++ batch_rows E (concat batches) /\
   error_file (shared p') = error_file w ++ flat_map (item_errors E) (concat batches)).
Proof.
  intros p'.
  assert (Heq : p' = Pool [] [Idle] (fst (run_batches E batches w)) false
                          (snd (run_batches E batches w))).
  { pose proof (one_thread_batches batches [] w) as Hseq. simpl app in Hseq.
    pose proof (run_pool_steps sched (start_pool 1 batches w)) as Hrun.
    fold p' in Hrun.
    assert (Hfin : pool_finished p').
    { apply run_pool_finished. lia. }
    assert (Hend : pool_finished (Pool [] [Idle] (fst (run_batches E batches w)) false
                                       (snd (run_batches E batches w)))).
    { split; [reflexivity | repeat constructor]. }
    pose proof (@single_thread_run _ _ Hseq eq_refl Hend p' Hrun) as Hrest.
    inversion Hrest as [|? r ? [i Hi] ?]; subst; [reflexivity|].
    rewrite (finished_no_step i Hfin) in Hi. discriminate. }
  split; [exact Heq|].
  intros Herr Hres. rewrite Heq. simpl. apply run_batches_files; assumption.
Qed.

End Pool.

(** * The whole program *)

Section Main.

Variable E : environment.




(** What holds of the counter.  It is 0 at start-up.  In every state the
    pool can reach, in every environment, [lock_count] is held exactly
    when one thread is inside the [with lock_count:] block, no two threads
    are inside, and the thread inside has read the current value of the
    counter; so a step leaves the counter alone or adds exactly one to it.
    When no append to the error file raises, the counter plus the items
    still to be counted is the number of items given to the pool: each
    item, failed or not, is counted once.  And when [main] is over, with
    at least one worker and with files that accept the appends,
    [total_urls] is the number of well-formed rows of the input and the
    counter equals it, for every number of workers and every schedule.
    With an error file that refuses a row the counter can stop short of
    the total: see [counter_stops_short]. *)
Lemma scraped_count_reaches_total (rows : list (list string)) (max_workers : Z)
    (sched : list nat) (results : list sink_row) (errors : list error_row) :
  let w0 := initial_world results errors in
  let w' := snd (main E rows max_workers sched w0) in
  scraped_count w0 = 0%nat /\
  (forall (batches : list (list WorkItem)) (w : world) (p : pool),
     pool_steps E (start_pool max_workers batches w) p ->
     lock_invariant p /\
     (forall p' : pool,
        pool_step E p p' ->
        scraped_count (shared p') = scraped_count (shared p) \/
        scraped_count (shared p') = S (scraped_count (shared p))) /\
     (error_file_reliable E ->
      (scraped_count (shared p) + items_left p =
       scraped_count w + length (concat batches))%nat)) /\
  (1 <= max_workers -> error_file_reliable E -> result_file_reliable E ->
   total_urls w' = length (filter (row_ok E) rows) /\
   scraped_count w' = total_urls w').
Proof.
  intros w0 w'.
  split; [reflexivity|]. split.
  { intros batches w p Hsteps.
    destruct (start_pool_invariants max_workers batches w) as [Hlock Hcount].
    pose proof (lock_invariant_steps Hlock Hsteps) as Hlock'.
    split; [exact Hlock'|]. split.
    - intros p' Hstep. eapply counter_step; eassumption.
    - intros Herr.
      destruct (count_invariant_steps Herr Hlock Hcount Hsteps) as [_ Hsum].
      rewrite length_concat. exact Hsum. }
  intros Hmw Herr Hres.
  rewrite <- well_formed_items_length.
  subst w'. unfold main. rewrite read_id_url_pairs_spec.
  set (items := well_formed_items E rows).
  pose proof (chunk_items_cases items) as Hcases.
  destruct (chunk_data items (batch_count (length items))) as [batches|e].
  - unfold write_header. rewrite Hres.
    destruct (Z.leb_spec max_workers 0) as [Hle|_]; [lia|].
    cbn [snd fst].
    match goal with
    | |- context [run_pool E sched ?p0] => set (start := p0)
    end.
    destruct (frame_steps (run_pool_steps E sched start)) as (Ht & _).
    split.
    + rewrite Ht. reflexivity.
    + rewrite Ht. unfold start. rewrite (run_pool_counts sched _ _ Hmw Herr).
      rewrite Hcases. reflexivity.
  - subst items. simpl. rewrite Hcases. split; reflexivity.
Qed.

End Main.

(** C5, as the code has it.  On an input without rows, [main] sets
    [total_urls] to 0, starts no worker and writes no row, and it raises:
    [chunk_data] is called with 0 batches, [divmod] raises
    [ZeroDivisionError], and the call stands before the [try] of
    [main]. *)
Theorem main_empty_input (E : environment) (max_workers : Z) (sched : list nat)
    (results : list sink_row) (errors : list error_row) :
  main E [] max_workers sched (initial_world results errors) =
  (Raise ZeroDivisionError, World 0 0 results errors [LogRead 0]).
Proof. reflexivity. Qed.


(** * A whole run of [main] *)

Section Run.

Variable E : environment.

Lemma items_chunked (items : list WorkItem) :
  items <> [] ->
  exists batches : list (list WorkItem),
    chunk_data items (batch_count (length items)) = Ok batches /\
    concat batches = items.
Proof.
  intros Hne. pose proof (chunk_items_cases items) as H.
  destruct (chunk_data items (batch_count (length items))) as [batches|e].
  - exists batches. auto.
  - contradiction.
Qed.

Lemma row_log_lines (rows : list (list string)) :
  progress_lines (flat_map (row_log E) rows) = 0%nat /\
  all_scraped_lines (flat_map (row_log E) rows) = 0%nat.
Proof.
  induction rows as [|row rows [IH1 IH2]]; [split; reflexivity|].
  simpl. rewrite progress_lines_app, all_scraped_lines_app, IH1, IH2.
  unfold row_log. destruct (parse_row E row) as [item|[|]]; split; reflexivity.
Qed.

(** X14.  Whatever the environment, the number of workers and the
    schedule, and also when [main] raises, a run of [main] only appends:
    the result file, the error file and the log it leaves begin with what
    they held before, and the counter is not lower than it was. *)
Theorem main_append_only (rows : list (list string)) (max_workers : Z)
    (sched : list nat) (w : world) :
  grows w (snd (main E rows max_workers sched w)).
Proof.
  unfold main. rewrite read_id_url_pairs_spec.
  set (items := well_formed_items E rows).
  set (w1 := World (scraped_count w) (length items) (result_file w) (error_file w)
                   (log w ++ flat_map (row_log E) rows ++ [LogRead (length items)])).
  assert (G1 : grows w w1).
  { unfold grows, w1; simpl. split; [apply Nat.le_refl|].
    split; [exists []; symmetry; apply app_nil_r|].
    split; [exists []; symmetry; apply app_nil_r|].
    eexists; reflexivity. }
  assert (Glog : forall ev u, grows u (logging ev u)).
  { intros ev u. unfold grows, logging; simpl. split; [apply Nat.le_refl|].
    split; [exists []; symmetry; apply app_nil_r|].
    split; [exists []; symmetry; apply app_nil_r|].
    eexists; reflexivity. }
  assert (Gres : forall rs u, grows u (write_results rs u)).
  { intros rs u. unfold grows, write_results; simpl. split; [apply Nat.le_refl|].
    split; [eexists; reflexivity|].
    split; exists []; symmetry; apply app_nil_r. }
  destruct (chunk_data items (batch_count (length items))) as [batches|e];
    [|exact G1].
  assert (G2 : grows w1 (snd (write_header E w1))).
  { unfold write_header.
    destruct (result_file_fault E _) as [[[l s] e]|]; simpl; apply Gres. }
  destruct (write_header E w1) as [[u|e] w2]; simpl in G2.
  - destruct (max_workers <=? 0); simpl.
    + eapply grows_trans; [exact G1|]. eapply grows_trans; [exact G2 | apply Glog].
    + eapply grows_trans; [exact G1|]. eapply grows_trans; [exact G2|].
      eapply grows_trans; [apply (Glog LogInitiated)|].
      apply (@grows_steps E (start_pool max_workers batches (logging LogInitiated w2))).
      * apply start_pool_invariants.
      * apply run_pool_steps.
  - simpl. eapply grows_trans; [exact G1|]. eapply grows_trans; [exact G2 | apply Glog].
Qed.

(** X10.  With at least one worker, files that accept the appends and at
    least one well-formed row, [main] returns, and for every number of
    workers and every schedule the result file ends with what it held, the
    header if it was empty, and one row per well-formed row of the input,
    in some order; the error file ends with what it held and one row per
    item that failed, in some order.  No row is lost, doubled or made up
    by the interleaving of the workers. *)
Theorem main_files_content (rows : list (list string)) (max_workers : Z)
    (sched : list nat) (w : world) :
  1 <= max_workers -> error_file_reliable E -> result_file_reliable E ->
  well_formed_items E rows <> [] ->
  let items := well_formed_items E rows in
  let w' := snd (main E rows max_workers sched w) in
  fst (main E rows max_workers sched w) = Ok tt /\
  Permutation (result_file w')
    (result_file w ++ match result_file w with [] => [HeaderRow] | _ :: _ => [] end ++
     batch_rows E items) /\
  Permutation (error_file w') (error_file w ++ flat_map (item_errors E) items).
Proof.
  intros Hmw Herr Hres Hne items w'. subst w'.
  unfold main. rewrite read_id_url_pairs_spec. fold items.
  destruct (items_chunked Hne) as (batches & Hchunk & Hconcat).
  fold items in Hchunk, Hconcat. rewrite Hchunk.
  unfold write_header. rewrite Hres.
  destruct (Z.leb_spec max_workers 0) as [Hle|_]; [lia|].
  cbn [fst snd]. split; [reflexivity|].
  match goal with
  | |- context [start_pool max_workers batches ?u] =>
      destruct (@run_pool_rows E sched max_workers batches u Hmw Herr Hres) as [Hr He]
  end.
  rewrite Hconcat in Hr, He. simpl in Hr, He.
  rewrite <- app_assoc in Hr. split; [exact Hr | exact He].
Qed.

Lemma run_pool_lines (sched : list nat) (max_workers : Z)
    (batches : list (list WorkItem)) (w : world) :
  1 <= max_workers -> error_file_reliable E ->
  scraped_count w = 0%nat -> total_urls w = length (concat batches) ->
  (0 < length (concat batches))%nat ->
  let w' := shared (run_pool E sched (start_pool max_workers batches w)) in
  progress_lines (log w') =
    (progress_lines (log w) + length (concat batches) / 10)%nat /\
  all_scraped_lines (log w') = (all_scraped_lines (log w) + 1)%nat.
Proof.
  intros Hmw Herr Hzero Htotal Hpos w'.
  destruct (@lines_steps E (start_pool max_workers batches w)
              (run_pool E sched (start_pool max_workers batches w))
              (proj1 (start_pool_invariants max_workers batches w))
              (run_pool_steps E sched _)) as [Hp Ha].
  rewrite (run_pool_counts sched batches w Hmw Herr) in Hp, Ha.
  change (shared (start_pool max_workers batches w)) with w in Hp, Ha.
  fold w' in Hp, Ha.
  rewrite Hzero in Hp, Ha. rewrite Htotal in Ha.
  change (0 + length (concat batches))%nat with (length (concat batches)) in Hp, Ha.
  unfold reached in Ha. rewrite Nat.leb_refl in Ha.
  destruct (Nat.leb_spec (length (concat batches)) 0) as [H0|_]; [lia|].
  change (0 / 10)%nat with 0%nat in Hp.
  split; lia.
Qed.

(** X11.  Under the same conditions and from a counter at 0, whatever the
    number of workers and the schedule, the log of a run of [main] over n
    well-formed rows holds exactly n / 10 (rounded down) lines with an
    estimate of the time left and exactly one line "All URLs scraped". *)
Theorem main_progress_lines (rows : list (list string)) (max_workers : Z)
    (sched : list nat) (results : list sink_row) (errors : list error_row) :
  1 <= max_workers -> error_file_reliable E -> result_file_reliable E ->
  well_formed_items E rows <> [] ->
  let w' := snd (main E rows max_workers sched (initial_world results errors)) in
  progress_lines (log w') = (length (well_formed_items E rows) / 10)%nat /\
  all_scraped_lines (log w') = 1%nat.
Proof.
  intros Hmw Herr Hres Hne w'. subst w'.
  unfold main. rewrite read_id_url_pairs_spec.
  set (items := well_formed_items E rows) in *.
  destruct (items_chunked Hne) as (batches & Hchunk & Hconcat).
  rewrite Hchunk.
  unfold write_header. rewrite Hres.
  destruct (Z.leb_spec max_workers 0) as [Hle|_]; [lia|].
  cbn [fst snd].
  match goal with
  | |- context [start_pool max_workers batches ?u] => set (w1 := u)
  end.
  assert (Hlen : (0 < length (concat batches))%nat).
  { rewrite Hconcat. destruct items; [contradiction | simpl; lia]. }
  assert (Ht : total_urls w1 = length (concat batches)).
  { rewrite Hconcat. reflexivity. }
  destruct (@run_pool_lines sched max_workers batches w1 Hmw Herr eq_refl Ht Hlen)
    as [Hp Ha].
  rewrite Hp, Ha, Hconcat.
  destruct (row_log_lines rows) as [L1 L2].
  assert (Hlog : log w1 = flat_map (row_log E) rows ++
                          [LogRead (length items); LogInitiated]).
  { unfold w1. simpl. rewrite <- app_assoc. reflexivity. }
  rewrite Hlog, progress_lines_app, all_scraped_lines_app, L1, L2.
  split; reflexivity.
Qed.

(** X13.  With [max_workers <= 0] and at least one well-formed row,
    [main] returns without an exception and nothing is scraped: the
    counter and the error file are as they were, the result file gets at
    most the header (and only when it was empty), and the log ends with
    the line of the error that [main] caught. *)
Theorem main_without_workers (rows : list (list string)) (max_workers : Z)
    (sched : list nat) (w : world) :
  max_workers <= 0 -> well_formed_items E rows <> [] ->
  let items := well_formed_items E rows in
  let w' := snd (main E rows max_workers sched w) in
  fst (main E rows max_workers sched w) = Ok tt /\
  scraped_count w' = scraped_count w /\
  total_urls w' = length items /\
  error_file w' = error_file w /\
  (result_file w' = result_file w \/
   (result_file w = [] /\ result_file w' = [HeaderRow])) /\
  exists e : exn,
    log w' = log w ++ flat_map (row_log E) rows ++
             [LogRead (length items); LogMainError e].
Proof.
  intros Hmw Hne items w'. subst w'.
  unfold main. rewrite read_id_url_pairs_spec. fold items.
  destruct (items_chunked Hne) as (batches & Hchunk & Hconcat).
  fold items in Hchunk. rewrite Hchunk.
  unfold write_header. simpl result_file.
  destruct (Z.leb_spec max_workers 0) as [_|Hlt]; [|lia].
  destruct (result_file w) as [|r rs] eqn:Hfile.
  - destruct (result_file_fault E [HeaderRow]) as [[[l s] e]|]; cbn [fst snd].
    + split; [reflexivity|].
      destruct (Nat.min s l) as [|k]; simpl.
      * repeat split; try reflexivity.
        -- left; reflexivity.
        -- exists e. rewrite <- !app_assoc. reflexivity.
      * rewrite firstn_nil. repeat split; try reflexivity.
        -- right; split; reflexivity.
        -- exists e. rewrite <- !app_assoc. reflexivity.
    + split; [reflexivity|]. simpl.
      repeat split; try reflexivity.
      * right; split; reflexivity.
      * eexists. rewrite <- !app_assoc. reflexivity.
  - destruct (result_file_fault E []) as [[[l s] e]|]; cbn [fst snd].
    + split; [reflexivity|]. simpl.
      repeat split; try reflexivity.
      * left. rewrite firstn_nil, app_nil_r. reflexivity.
      * exists e. rewrite <- !app_assoc. reflexivity.
    + split; [reflexivity|]. simpl.
      repeat split; try reflexivity.
      * left. rewrite app_nil_r. reflexivity.
      * eexists. rewrite <- !app_assoc. reflexivity.
Qed.

End Run.

(** ** The counter when the error file refuses a row *)

(** [main] with one worker is the plain loop over the batches. *)
Lemma main_one_worker (E : environment) (rows : list (list string)) (sched : list nat)
    (w : world) :
  main E rows 1 sched w =
  match read_id_url_pairs_from_csv E rows w with
  | (Raise e, w1) => (Raise e, w1)
  | (Ok id_url_pairs, w1) =>
      match write_header E w1 with
      | (Raise e, w2) => (Ok tt, logging (LogMainError e) w2)
      | (Ok _, w2) =>
          (Ok tt, snd (run_batches E id_url_pairs (logging LogInitiated w2)))
      end
  end.
Proof.
  unfold main.
  destruct (read_id_url_pairs_from_csv E rows w) as [[batches|e] w1]; [|reflexivity].
  destruct (write_header E w1) as [[u|e] w2]; [|reflexivity].
  change (1 <=? 0) with false. cbv iota zeta.
  rewrite one_worker_run. reflexivity.
Qed.

(** C4, as the code has it.  An input of 513 well-formed rows is cut into
    512 batches, the first of two items.  The page of the first row cannot
    be fetched and the error file cannot be opened: the append of the
    item's row raises in the handler, the [finally] block counts the item,
    and the exception ends the call of [scrape_urls]; the second item of
    the batch is never processed, so it is never counted.  [main] returns
    normally with every batch finished, [total_urls] at 513 and the
    counter at 512: with one worker under every schedule, and with four
    workers. *)
Theorem counter_stops_short (sched : list nat) :
  let rows := ["x"; "2"; "http://b"] :: repeat ["x"; "1"; "http://a"] 512 in
  let run1 := main read_only_errors_env rows 1 sched (initial_world [] []) in
  let run4 := main read_only_errors_env rows 4 [0; 1; 2; 3; 3; 2; 1; 0]%nat
                (initial_world [] []) in
  fst run1 = Ok tt /\
  total_urls (snd run1) = 513%nat /\ scraped_count (snd run1) = 512%nat /\
  fst run4 = Ok tt /\
  total_urls (snd run4) = 513%nat /\ scraped_count (snd run4) = 512%nat.
Proof.
  intros rows run1 run4. subst run1 run4 rows.
  rewrite main_one_worker.
  vm_compute. repeat split; reflexivity.
Qed.

(** ** The worker on examples *)

(** A failed item gets a row in both files: for it, "a row in exactly one
    of the two files" does not hold. *)
Lemma failed_item_has_both_rows :
  let w' := snd (scrape_urls example_env [(2, "http://b")] (initial_world [] [])) in
  fetch example_env "http://b" = Raise (FetchError "timeout") /\
  result_rows_of 2 (result_file w') = [DataRow 2 None] /\
  error_rows_of 2 (error_file w') = [ErrorRow 2 "http://b" "timeout"] /\
  ~ ((length (result_rows_of 2 (result_file w')) = 1%nat /\
      length (error_rows_of 2 (error_file w')) = 0%nat) \/
     (length (result_rows_of 2 (result_file w')) = 0%nat /\
      length (error_rows_of 2 (error_file w')) = 1%nat)).
Proof.
  vm_compute. repeat split; try reflexivity.
  intros [[_ H] | [H _]]; discriminate H.
Qed.

Lemma scrape_urls_rows_witness :
  exists w' : world,
    scrape_urls example_env [(1, "http://a"); (2, "http://b"); (3, "http://c")]
      (initial_world [] []) = (Ok "Scraping complete", w') /\
    result_file w' =
      result_file (initial_world [] []) ++
      map (fun item => DataRow (fst item) (item_description example_env item))
          [(1, "http://a"); (2, "http://b"); (3, "http://c")] /\
    error_file w' =
      error_file (initial_world [] []) ++
      flat_map (item_errors example_env) [(1, "http://a"); (2, "http://b"); (3, "http://c")] /\
    forall item : WorkItem,
      match item_exception example_env item with
      | Some e =>
          item_errors example_env item = [ErrorRow (fst item) (snd item) (str_exn e)] /\
          item_description example_env item = None
      | None => item_errors example_env item = []
      end.
Proof.
  apply (@scrape_urls_rows example_env
           [(1, "http://a"); (2, "http://b"); (3, "http://c")] (initial_world [] [])).
  - intros row; reflexivity.
  - intros rows; reflexivity.
Defined.

(** The example of the specification: three items, the second times out. *)
Example scrape_urls_three_items :
  let w' := snd (scrape_urls example_env [(1, "http://a"); (2, "http://b"); (3, "http://c")]
                   (set_total_urls 3 (initial_world [] []))) in
  result_file w' =
    [DataRow 1 (Some "A description that is exactly fifty characters ok.");
     DataRow 2 None; DataRow 3 None] /\
  error_file w' = [ErrorRow 2 "http://b" "timeout"] /\
  scraped_count w' = 3%nat.
Proof. vm_compute. repeat split. Qed.

Lemma failure_isolation_witness :
  (forall (results : list ResultRow) (w0 : world),
     exists (r : result unit) (w1 : world),
       scrape_item example_env (2, "http://b") results w0 =
         (r, results ++ [(fst (2, "http://b"), None)], w1) /\
       match r with
       | Ok _ =>
           error_file w1 =
           error_file w0 ++
           [ErrorRow (fst (2, "http://b")) (snd (2, "http://b")) (str_exn (FetchError "timeout"))]
       | Raise e' =>
           exists logged : bool,
             error_file_fault example_env
               (ErrorRow (fst (2, "http://b")) (snd (2, "http://b"))
                  (str_exn (FetchError "timeout"))) = Some (logged, e')
       end) /\
  (error_file_reliable example_env ->
   exists w_i w_end : world,
     scrape_loop example_env ([(1, "http://a")] ++ [(2, "http://b")]) [] (initial_world [] []) =
       (Ok (map (item_result example_env) ([(1, "http://a")] ++ [(2, "http://b")])), w_i) /\
     item_result example_env (2, "http://b") = (fst (2, "http://b"), None) /\
     In (ErrorRow (fst (2, "http://b")) (snd (2, "http://b")) (str_exn (FetchError "timeout")))
        (error_file w_i) /\
     scrape_loop example_env ([(1, "http://a")] ++ (2, "http://b") :: [(3, "http://c")]) []
       (initial_world [] []) =
       scrape_loop example_env [(3, "http://c")]
         (map (item_result example_env) ([(1, "http://a")] ++ [(2, "http://b")])) w_i /\
     scrape_loop example_env [(3, "http://c")]
         (map (item_result example_env) ([(1, "http://a")] ++ [(2, "http://b")])) w_i =
       (Ok (map (item_result example_env)
                ([(1, "http://a")] ++ (2, "http://b") :: [(3, "http://c")])), w_end) /\
     scraped_count w_end = (scraped_count w_i + length [(3, "http://c")])%nat /\
     scraped_count w_i =
       (scraped_count (initial_world [] []) + length [(1, "http://a")] + 1)%nat /\
     fst (scrape_urls example_env ([(1, "http://a")] ++ (2, "http://b") :: [(3, "http://c")])
            (initial_world [] [])) = Ok "Scraping complete").
Proof.
  apply (@failure_isolation example_env [(1, "http://a")] [(3, "http://c")]
           (2, "http://b") (FetchError "timeout") (initial_world [] [])).
  reflexivity.
Defined.

(** With two items done out of three, the third makes the count equal to
    the total and is no multiple of 10: "All URLs scraped" is logged, and
    no estimate. *)
Lemma no_estimate_at_total :
  let w := set_scraped_count 2 (set_total_urls 3 (initial_world [] [])) in
  let w' := update_progress example_env w in
  scraped_count w' = 3%nat /\ scraped_count w' = total_urls w' /\
  log w' = [LogAllScraped] /\
  ~ (exists seconds : Z, In (LogProgress 3 3 seconds) (log w')).
Proof.
  vm_compute. repeat split.
  intros [seconds [H | []]]. discriminate H.
Qed.

(** A failing append to the result file is caught inside [save_to_csv]:
    it is logged, [scrape_urls] returns, and only the rows of this call
    that had not reached the file are missing. *)
Lemma result_file_fault_contained (E : environment) (data : list WorkItem) (w : world)
    (logged stored : nat) (e : exn) :
  error_file_reliable E ->
  result_file_fault E (map to_sink_row (map (item_result E) data)) =
    Some (logged, stored, e) ->
  exists w1 : world,
    scrape_loop E data [] w = (Ok (map (item_result E) data), w1) /\
    scrape_urls E data w =
      (Ok "Scraping complete", save_to_csv E (map (item_result E) data) w1) /\
    result_file (save_to_csv E (map (item_result E) data) w1) =
      result_file w ++
      firstn (Nat.min stored logged) (map to_sink_row (map (item_result E) data)) /\
    In (LogSaveError (row_ids (map (item_result E) data)) e)
       (log (save_to_csv E (map (item_result E) data) w1)).
Proof.
  intros Herr Hfault.
  destruct (scrape_loop_reliable data Herr [] w) as (w1 & Hloop & _ & _ & Hr & _).
  simpl app in Hloop. exists w1. split; [exact Hloop|]. split; [|split].
  - unfold scrape_urls. rewrite Hloop. reflexivity.
  - destruct (save_to_csv_frame E (map (item_result E) data) w1) as (_ & _ & _ & Fr).
    rewrite Hfault in Fr. rewrite Fr, Hr. reflexivity.
  - unfold save_to_csv. rewrite Hfault. simpl. apply in_or_app. right. left. reflexivity.
Qed.

(** C6, at the error file.  The first item times out and the append of
    its row to the error file raises: the exception leaves the handler,
    the [finally] block counts the item, and [scrape_urls] raises.  The
    second item is never fetched, [save_to_csv] is never called (the
    result file stays empty although a result was in memory), and nothing
    is logged about the failed append. *)
Lemma error_file_fault_leaves_scrape_urls :
  let r := scrape_urls read_only_errors_env [(2, "http://b"); (1, "http://a")]
             (set_total_urls 2 (initial_world [] [])) in
  fst r = Raise (OSError "Permission denied") /\
  scraped_count (snd r) = 1%nat /\
  result_file (snd r) = [] /\
  error_file (snd r) = [] /\
  log (snd r) = [LogScrapeError 2 "http://b" (FetchError "timeout")].
Proof. vm_compute. repeat split. Qed.

(** The same batch with a result file that cannot be opened: the failure
    is logged and [scrape_urls] returns. *)
Example result_file_fault_example :
  let r := scrape_urls read_only_results_env [(2, "http://b"); (1, "http://a")]
             (set_total_urls 2 (initial_world [] [])) in
  fst r = Ok "Scraping complete" /\
  scraped_count (snd r) = 2%nat /\
  result_file (snd r) = [] /\
  error_file (snd r) = [ErrorRow 2 "http://b" "timeout"] /\
  In (LogSaveError [2; 1] (OSError "Permission denied")) (log (snd r)).
Proof. vm_compute. repeat split. right; right; right; right; left; reflexivity. Qed.

Lemma extraction_miss_is_success_witness :
  (exists w1 : world,
     scrape_item example_env (3, "http://c") [] (initial_world [] []) =
       (Ok tt, [] ++ [(3, None)], w1) /\
     error_file w1 = error_file (initial_world [] []) /\
     result_file w1 = result_file (initial_world [] [])) /\
  item_exception example_env (3, "http://c") = None /\
  forall (before after : list WorkItem) (w0 : world),
    error_file_reliable example_env -> result_file_reliable example_env ->
    let w' := snd (scrape_urls example_env (before ++ (3, "http://c") :: after) w0) in
    result_file w' =
      result_file w0 ++
      map (fun item => DataRow (fst item) (item_description example_env item)) before ++
      DataRow 3 None ::
      map (fun item => DataRow (fst item) (item_description example_env item)) after /\
    error_file w' = error_file w0 ++ flat_map (item_errors example_env) (before ++ after).
Proof.
  apply (@extraction_miss_is_success example_env 3 "http://c" "<html>http://c</html>"
           [] (initial_world [] [])).
  - reflexivity.
  - right. exists "short". split; [reflexivity | apply Nat.ltb_lt; reflexivity].
Defined.

Lemma scraped_count_reaches_total_witness :
  let w' := snd (main example_env example_rows 4 [0; 1; 0; 2; 1; 7; 0]%nat
                   (initial_world [] [])) in
  1 <= 4 /\ error_file_reliable example_env /\ result_file_reliable example_env /\
  total_urls w' = length (filter (row_ok example_env) example_rows) /\
  scraped_count w' = total_urls w'.
Proof.
  intros w'.
  assert (H1 : 1 <= 4) by lia.
  assert (H2 : error_file_reliable example_env) by (intros row; reflexivity).
  assert (H3 : result_file_reliable example_env) by (intros rows; reflexivity).
  split; [exact H1|]. split; [exact H2|]. split; [exact H3|].
  exact (proj2 (proj2 (@scraped_count_reaches_total example_env example_rows 4
                         [0; 1; 0; 2; 1; 7; 0]%nat [] [])) H1 H2 H3).
Defined.

(** The example input under three numbers of workers and three schedules:
    the same counter and the same rows (the three items fall into three
    batches, saved in the order in which the threads finish). *)
Example main_three_worker_counts :
  let run mw sched := snd (main example_env example_rows mw sched (initial_world [] [])) in
  scraped_count (run 1 []) = 3%nat /\
  scraped_count (run 4 [3; 2; 1; 0; 3; 2; 1; 0]%nat) = 3%nat /\
  scraped_count (run 64 [5; 9; 5; 9; 5; 5]%nat) = 3%nat /\
  total_urls (run 1 []) = 3%nat /\
  result_file (run 1 []) =
    [HeaderRow;
     DataRow 1 (Some "A description that is exactly fifty characters ok.");
     DataRow 2 None; DataRow 3 None] /\
  error_file (run 4 [3; 2; 1; 0; 3; 2; 1; 0]%nat) = [ErrorRow 2 "http://b" "timeout"] /\
  error_file (run 64 [5; 9; 5; 9; 5; 5]%nat) = [ErrorRow 2 "http://b" "timeout"].
Proof. vm_compute. repeat split. Qed.

(** A second run over the file the first run left: no second header. *)
Example main_twice_one_header :
  let w1 := snd (main example_env example_rows 4 [] (initial_world [] [])) in
  let w2 := snd (main example_env example_rows 4 []
                   (initial_world (result_file w1) (error_file w1))) in
  header_count (result_file w1) = 1%nat /\ header_count (result_file w2) = 1%nat /\
  length (result_file w2) = 7%nat.
Proof. vm_compute. repeat split. Qed.

(** ** The further properties on the example input *)

Lemma small_input_batches_witness :
  (1 <= length (well_formed_items example_env example_rows) <= 512)%nat /\
  fst (read_id_url_pairs_from_csv example_env example_rows (initial_world [] [])) =
  Ok (map (fun item => [item]) (well_formed_items example_env example_rows) ++
      repeat [] (Z.to_nat (batch_count
                             (length (well_formed_items example_env example_rows))) -
                 length (well_formed_items example_env example_rows))).
Proof.
  assert (H : (1 <= length (well_formed_items example_env example_rows) <= 512)%nat)
    by (vm_compute; lia).
  split; [exact H|].
  exact (@small_input_batches example_env example_rows (initial_world [] []) H).
Defined.

Lemma large_input_first_batch_witness :
  (512 < length (well_formed_items example_env (repeat ["x"; "1"; "http://a"] 513)))%nat /\
  batch_count (length (well_formed_items example_env
                         (repeat ["x"; "1"; "http://a"] 513))) <
    Z.of_nat (length (well_formed_items example_env
                        (repeat ["x"; "1"; "http://a"] 513))) /\
  exists (first : list WorkItem) (others : list (list WorkItem)),
    fst (read_id_url_pairs_from_csv example_env (repeat ["x"; "1"; "http://a"] 513)
           (initial_world [] [])) = Ok (first :: others) /\
    Z.of_nat (length (first :: others)) =
      batch_count (length (well_formed_items example_env
                             (repeat ["x"; "1"; "http://a"] 513))) /\
    (2 <= length first)%nat.
Proof.
  assert (H : (512 < length (well_formed_items example_env
                               (repeat ["x"; "1"; "http://a"] 513)))%nat).
  { apply Nat.ltb_lt. vm_compute. reflexivity. }
  split; [exact H|].
  exact (@large_input_first_batch example_env (repeat ["x"; "1"; "http://a"] 513)
           (initial_world [] []) H).
Defined.

Lemma scrape_urls_cut_short_witness :
  exists w' : world,
    scrape_urls read_only_errors_env
      ([(1, "http://a")] ++ (2, "http://b") :: [(3, "http://c")])
      (initial_world [] []) = (Raise (OSError "Permission denied"), w') /\
    scraped_count w' = (scraped_count (initial_world [] []) + length [(1, "http://a")] + 1)%nat /\
    total_urls w' = total_urls (initial_world [] []) /\
    result_file w' = result_file (initial_world [] []) /\
    error_file w' =
      error_file (initial_world [] []) ++
      flat_map (item_errors read_only_errors_env) [(1, "http://a")].
Proof.
  apply (@scrape_urls_cut_short read_only_errors_env [(1, "http://a")] [(3, "http://c")]
           (2, "http://b") (OSError "Permission denied") (initial_world [] [])).
  - constructor; [reflexivity | constructor].
  - reflexivity.
Defined.

Lemma failure_stops_batch_witness :
  exists w' : world,
    (forall after : list WorkItem,
       scrape_urls read_only_errors_env ([(1, "http://a")] ++ (2, "http://b") :: after)
         (initial_world [] []) = (Raise (OSError "Permission denied"), w')) /\
    scraped_count w' =
      (scraped_count (initial_world [] []) + length [(1, "http://a")] + 1)%nat /\
    result_file w' = result_file (initial_world [] []).
Proof.
  apply (@failure_stops_batch read_only_errors_env [(1, "http://a")] (2, "http://b")
           (FetchError "timeout") (OSError "Permission denied") false
           (initial_world [] [])).
  - constructor; [reflexivity | constructor].
  - reflexivity.
  - reflexivity.
Defined.

Lemma extraction_miss_lost_witness :
  (exists w1 : world,
     scrape_item read_only_errors_env (3, "http://c") [] (initial_world [] []) =
       (Ok tt, [(3, None)], w1) /\
     error_file w1 = error_file (initial_world [] [])) /\
  exists w' : world,
    scrape_urls read_only_errors_env
      ((3, "http://c") :: (2, "http://b") :: [(1, "http://a")])
      (initial_world [] []) = (Raise (OSError "Permission denied"), w') /\
    result_file w' = result_file (initial_world [] []) /\
    error_file w' = error_file (initial_world [] []).
Proof.
  apply (@extraction_miss_lost read_only_errors_env 3 "http://c" "<html>http://c</html>"
           (2, "http://b") (OSError "Permission denied") [(1, "http://a")]
           (initial_world [] [])).
  - reflexivity.
  - right. exists "short". split; [reflexivity | apply Nat.ltb_lt; reflexivity].
  - reflexivity.
Defined.

(** The batch of the witness, run: the item without description is in
    neither file. *)
Example extraction_miss_lost_example :
  let r := scrape_urls read_only_errors_env [(3, "http://c"); (2, "http://b")]
             (set_total_urls 2 (initial_world [] [])) in
  fst r = Raise (OSError "Permission denied") /\
  result_file (snd r) = [] /\ error_file (snd r) = [] /\
  scraped_count (snd r) = 2%nat.
Proof. vm_compute. repeat split. Qed.

(** ** Doubles, code points and buffered files on examples *)

(** The estimate is computed in doubles: 14 seconds for 10 items of 55
    give 62 seconds (1.4 is not a double, and 45 times the double next to
    it is below 63); the clock of the examples gives 67 seconds. *)
Example approx_time_left_doubles :
  approx_time_left (float_of_int 14) 10 55 = 62 /\
  log (update_progress example_env
         (set_scraped_count 9 (set_total_urls 55 (initial_world [] [])))) =
    [LogProgress 10 55 67].
Proof. vm_compute. split; reflexivity. Qed.

(** [len] counts code points: nine characters in thirteen bytes are a
    description that is too short. *)
Example py_len_code_points :
  py_len "Łódź świt" = 9%nat /\ String.length "Łódź świt" = 13%nat /\
  py_len "A description that is exactly fifty characters ok." = 50%nat.
Proof. vm_compute. repeat split. Qed.

(** On a full disk [save_to_csv] logs a line for every row and an error,
    and no row is in the file; the handler's append to the error file
    logs its line and raises. *)
Example full_disk_example :
  let saved := save_to_csv full_disk_env [(1, Some "a long description"); (3, None)]
                 (initial_world [] []) in
  let r := scrape_urls full_disk_env [(2, "http://b"); (1, "http://a")]
             (initial_world [] []) in
  result_file saved = [] /\
  log saved = [LogSaved 1; LogSaved 3;
               LogSaveError [1; 3] (OSError "No space left on device")] /\
  fst r = Raise (OSError "No space left on device") /\
  error_file (snd r) = [] /\
  log (snd r) = [LogScrapeError 2 "http://b" (FetchError "timeout"); LogErrorLogged 2].
Proof. vm_compute. repeat split. Qed.

Lemma main_files_content_witness :
  let items := well_formed_items example_env example_rows in
  let w' := snd (main example_env example_rows 4 [2; 0; 1; 1; 3; 0]%nat
                   (initial_world [] [])) in
  fst (main example_env example_rows 4 [2; 0; 1; 1; 3; 0]%nat (initial_world [] [])) =
    Ok tt /\
  Permutation (result_file w')
    (result_file (initial_world [] []) ++
     match result_file (initial_world [] []) with [] => [HeaderRow] | _ :: _ => [] end ++
     batch_rows example_env items) /\
  Permutation (error_file w')
    (error_file (initial_world [] []) ++ flat_map (item_errors example_env) items).
Proof.
  assert (H1 : 1 <= 4) by lia.
  assert (H2 : error_file_reliable example_env) by (intros row; reflexivity).
  assert (H3 : result_file_reliable example_env) by (intros rows; reflexivity).
  assert (H4 : well_formed_items example_env example_rows <> [])
    by (vm_compute; discriminate).
  exact (@main_files_content example_env example_rows 4 [2; 0; 1; 1; 3; 0]%nat
           (initial_world [] []) H1 H2 H3 H4).
Defined.

Lemma main_progress_lines_witness :
  let rows := repeat ["x"; "7"; "http://a"] 25 in
  let w' := snd (main example_env rows 3 [0; 1; 2; 2; 1; 0; 0]%nat (initial_world [] [])) in
  progress_lines (log w') = (length (well_formed_items example_env rows) / 10)%nat /\
  all_scraped_lines (log w') = 1%nat.
Proof.
  assert (H1 : 1 <= 3) by lia.
  assert (H2 : error_file_reliable example_env) by (intros row; reflexivity).
  assert (H3 : result_file_reliable example_env) by (intros rows; reflexivity).
  assert (H4 : well_formed_items example_env (repeat ["x"; "7"; "http://a"] 25) <> [])
    by (vm_compute; discriminate).
  exact (@main_progress_lines example_env (repeat ["x"; "7"; "http://a"] 25) 3
           [0; 1; 2; 2; 1; 0; 0]%nat [] [] H1 H2 H3 H4).
Defined.

Lemma pool_runs_every_batch_witness :
  let p' := run_pool read_only_errors_env [1; 0; 1; 1; 0]%nat
              (start_pool 2 [[(1, "http://a")]; [(2, "http://b"); (3, "http://c")]; []]
                 (initial_world [] [])) in
  queue p' = [] /\
  threads p' = repeat Idle (Z.to_nat 2) /\
  lock_count p' = false /\
  length (futures p') =
    length [[(1, "http://a")]; [(2, "http://b"); (3, "http://c")]; []] /\
  (error_file_reliable read_only_errors_env ->
   futures p' =
     repeat (Ok "Scraping complete")
       (length [[(1, "http://a")]; [(2, "http://b"); (3, "http://c")]; []])).
Proof.
  assert (H1 : 1 <= 2) by lia.
  exact (@pool_runs_every_batch read_only_errors_env [1; 0; 1; 1; 0]%nat 2
           [[(1, "http://a")]; [(2, "http://b"); (3, "http://c")]; []]
           (initial_world [] []) H1).
Defined.

Lemma main_without_workers_witness :
  let items := well_formed_items example_env example_rows in
  let w' := snd (main example_env example_rows 0 [] (initial_world [] [])) in
  fst (main example_env example_rows 0 [] (initial_world [] [])) = Ok tt /\
  scraped_count w' = scraped_count (initial_world [] []) /\
  total_urls w' = length items /\
  error_file w' = error_file (initial_world [] []) /\
  (result_file w' = result_file (initial_world [] []) \/
   (result_file (initial_world [] []) = [] /\ result_file w' = [HeaderRow])) /\
  exists e : exn,
    log w' = log (initial_world [] []) ++ flat_map (row_log example_env) example_rows ++
             [LogRead (length items); LogMainError e].
Proof.
  assert (H1 : 0 <= 0) by lia.
  assert (H2 : well_formed_items example_env example_rows <> [])
    by (vm_compute; discriminate).
  exact (@main_without_workers example_env example_rows 0 [] (initial_world [] []) H1 H2).
Defined.

(** One worker on the example input, under two schedules: the rows come in
    the order of the input. *)
Example one_worker_example :
  let run sched := snd (main example_env example_rows 1 sched (initial_world [] [])) in
  result_file (run []) =
    [HeaderRow;
     DataRow 1 (Some "A description that is exactly fifty characters ok.");
     DataRow 2 None; DataRow 3 None] /\
  run [0; 5; 0; 0; 3]%nat = run [] /\
  error_file (run []) = [ErrorRow 2 "http://b" "timeout"].
Proof. vm_compute. repeat split; reflexivity. Qed.
